(** * qvibe-recorder: the mock i2c transport and the socket command protocol

    A shallow embedding of [qvibe/i2cio.py] (the recording transport
    [mockIO] and the synthetic sample provider [MockIoDataProvider]) and of
    [qvibe/interface.py] (the line based [CommandProtocol]), followed by the
    properties of the specification that concern them. *)

From Stdlib Require Import ZArith QArith Qabs Qround Lqa List String Ascii Bool Lia.
From Stdlib Require Import Strings.Byte.
From Stdlib Require Import DecimalString.
Import ListNotations.

Local Open Scope Z_scope.

(** ** Python values shared by both modules *)

Module Py.

(** The exceptions the two source files can raise or let through. *)
Inductive exn : Type :=
| OverflowError
| ValueError
| ZeroDivisionError
| TypeError
| KeyError
| IndexError
| Empty               (* queue.Empty *)
| UnicodeDecodeError
| JSONDecodeError
| RecursionError.

(** Outcome of a call: a value, or an exception on its way to the caller. *)
Inductive result (A : Type) : Type :=
| Ok (a : A)
| Raise (e : exn).
Arguments Ok {A} a.
Arguments Raise {A} e.

(** A stateful, fallible computation.  The state is returned on both
    outcomes: what a Python method has mutated before it raises stays
    mutated. *)
Definition M (S A : Type) : Type := S -> result A * S.

Definition ret {S A} (a : A) : M S A := fun s => (Ok a, s).
Definition raise {S A} (e : exn) : M S A := fun s => (Raise e, s).
Definition bind {S A B} (c : M S A) (k : A -> M S B) : M S B :=
  fun s => match c s with
           | (Ok a, s') => k a s'
           | (Raise e, s') => (Raise e, s')
           end.
Definition get {S} : M S S := fun s => (Ok s, s).
Definition modify {S} (f : S -> S) : M S unit := fun s => (Ok tt, f s).
Definition lift {S A} (r : result A) : M S A := fun s => (r, s).

(** [try c except e: h] for one exception class. *)
Definition try_except {S A} (c : M S A) (catches : exn -> bool) (h : exn -> M S A) : M S A :=
  fun s => match c s with
           | (Ok a, s') => (Ok a, s')
           | (Raise e, s') => if catches e then h e s' else (Raise e, s')
           end.

Declare Scope py_scope.
Delimit Scope py_scope with py.
Notation "x <- c ;; k" := (bind c (fun x => k))
  (at level 61, c at next level, right associativity) : py_scope.
Notation "c ;; k" := (bind c (fun _ => k))
  (at level 61, right associativity) : py_scope.

(** A Python [float].  A finite binary64 value is a dyadic rational, kept
    here as the rational it denotes. *)
Inductive pyfloat : Type :=
| Finite (q : Q)
| PosInf
| NegInf
| NaN.

(** Largest finite binary64 value, (2^53 - 1) * 2^971. *)
Definition DBL_MAX : Z := (2 ^ 53 - 1) * 2 ^ 971.

(** [val * 32768] on floats.  Scaling a binary64 value by 2^15 only moves
    its exponent, so the product is exact unless it leaves the finite
    range, where IEEE 754 rounds it to an infinity. *)
Definition fmul_32768 (val : pyfloat) : pyfloat :=
  match val with
  | Finite q =>
      let p := (q * inject_Z 32768)%Q in
      if Qle_bool (Qabs p) (inject_Z DBL_MAX) then Finite p
      else if 0 <? Qnum q then PosInf else NegInf
  | PosInf => PosInf
  | NegInf => NegInf
  | NaN => NaN
  end.

(** Truncation toward zero of a rational. *)
Definition Qtrunc (q : Q) : Z := Z.quot (Qnum q) (Zpos (Qden q)).

(** [int(f)] on a float: truncates toward zero, [OverflowError] on an
    infinity, [ValueError] on a NaN. *)
Definition int_of_float (f : pyfloat) : result Z :=
  match f with
  | Finite q => Ok (Qtrunc q)
  | PosInf | NegInf => Raise OverflowError
  | NaN => Raise ValueError
  end.

(** [round(f)] on a float, to the nearest integer, ties to even.  Not used
    by the source; it is what the specification's conversion rule names. *)
Definition py_round (q : Q) : Z :=
  let f := Qfloor q in
  let r := (q - inject_Z f)%Q in
  match (r ?= 1 # 2)%Q with
  | Lt => f
  | Gt => f + 1
  | Eq => if Z.even f then f else f + 1
  end.

Definition byte_of_Z (z : Z) : byte :=
  match Byte.of_N (Z.to_N z) with
  | Some b => b
  | None => x00
  end.

Definition Z_of_byte (b : byte) : Z := Z.of_N (Byte.to_N b).

(** Base 256 digits of [n], most significant first, on [len] bytes. *)
Fixpoint be_digits (len : nat) (n : Z) : list byte :=
  match len with
  | O => []
  | S k => be_digits k (n / 256) ++ [byte_of_Z (n mod 256)]
  end.

(** [n.to_bytes(len, 'big')]: unsigned, [OverflowError] on a negative
    number or on one that needs more than [len] bytes. *)
Definition to_bytes (n : Z) (len : nat) : result (list byte) :=
  if (0 <=? n) && (n <? 256 ^ Z.of_nat len) then Ok (be_digits len n)
  else Raise OverflowError.

(** [str(n)] of an int. *)
Definition str_of_int (n : Z) : string := NilZero.string_of_int (Z.to_int n).

End Py.

Import Py.
Local Open Scope py_scope.

(** ** qvibe/i2cio.py *)

Module I2cio.

(** The three register numbers of [qvibe.mpu6050] the provider compares
    against.  That module is outside the modelled sources, so the numbers
    are an interface.  The source compares with [is]; register numbers are
    single bytes, of which CPython keeps one object each, so identity is
    equality of the numbers. *)
Class mpu6050 : Type := {
  MPU6050_RA_INT_STATUS : Z;
  MPU6050_RA_FIFO_COUNTH : Z;
  MPU6050_RA_FIFO_R_W : Z
}.

(** What a provider or a queue hands back to a read. *)
Inductive pyval : Type :=
| PInt (n : Z)
| PIntList (l : list Z)
| PByteArray (b : list byte)
| PBytesList (l : list (list byte)).

(** *** MockIoDataProvider *)

Inductive axis : Type := AxisX | AxisY | AxisZ.

(** [self.samples]: the mapping with keys ['x'], ['y'], ['z']. *)
Record waveform : Type := {
  wave_x : list pyfloat;
  wave_y : list pyfloat;
  wave_z : list pyfloat
}.

(** The provider object, with the two effects it has on the outside: the
    lines it prints and the sleeps it takes (in units of 0.002 s). *)
Record MockIoDataProvider : Type := {
  idx : nat;
  samples : waveform;
  stdout : list string;
  slept : list Z
}.

(** [MockIoDataProvider.__init__] *)
Definition init_provider (w : waveform) : MockIoDataProvider :=
  {| idx := 0; samples := w; stdout := []; slept := [] |}.

Definition samples_at (w : waveform) (key : axis) : list pyfloat :=
  match key with
  | AxisX => wave_x w
  | AxisY => wave_y w
  | AxisZ => wave_z w
  end.

(** The provider after one more printed line. *)
Definition printed (p : MockIoDataProvider) (line : string) : MockIoDataProvider :=
  {| idx := idx p; samples := samples p; stdout := stdout p ++ [line]; slept := slept p |}.

Definition print (line : string) : M MockIoDataProvider unit :=
  modify (fun p => printed p line).

(** The provider after one more sleep. *)
Definition rested (p : MockIoDataProvider) (n : Z) : MockIoDataProvider :=
  {| idx := idx p; samples := samples p; stdout := stdout p; slept := slept p ++ [n] |}.

(** The provider with its cursor [k] sample sets further. *)
Definition advanced (p : MockIoDataProvider) (k : nat) : MockIoDataProvider :=
  {| idx := idx p + k; samples := samples p; stdout := stdout p; slept := slept p |}.

(** [time.sleep(0.002 * n)].  [time.sleep] first turns the duration into a
    signed 64-bit count of nanoseconds, and raises [OverflowError] when it
    does not fit; only then is a negative duration a [ValueError].  The
    nanoseconds of [0.002 * n] are [2000000 * n] up to a rounding far
    smaller than the distance of any such product from [2 ^ 63], so the
    test is made on the product itself.  (A count too large for a float
    is an [OverflowError] as well.) *)
Definition sleep (n : Z) : M MockIoDataProvider unit :=
  let ns := 2000000 * n in
  if (ns <? - 2 ^ 63) || (2 ^ 63 <? ns) then raise OverflowError
  else if n <? 0 then raise ValueError
  else modify (fun p => rested p n).

Definition incr_idx : M MockIoDataProvider unit :=
  modify (fun p => {| idx := S (idx p); samples := samples p;
                      stdout := stdout p; slept := slept p |}).

(** The exact product [q * 32768], and the finite samples for which it is
    still a finite double. *)
Definition scaled (q : Q) : Q := (q * inject_Z 32768)%Q.

Definition in_double_range (q : Q) : Prop := (Qabs (scaled q) <= inject_Z DBL_MAX)%Q.

(** [convert_value] *)
Definition convert_value (val : pyfloat) : result Z :=
  match int_of_float (fmul_32768 val) with
  | Ok i => Ok (if 0 <=? i then i else 65536 + i)
  | Raise e => Raise e
  end.

(** The conversion rule as the specification words it, to be compared with
    [convert_value]: [encoded = round(value * 32768)], wrapped as
    [65536 + encoded] when negative. *)
Definition spec_convert_value (val : pyfloat) : result Z :=
  match fmul_32768 val with
  | Finite p => let encoded := py_round p in
                Ok (if encoded <? 0 then 65536 + encoded else encoded)
  | PosInf | NegInf => Raise OverflowError
  | NaN => Raise ValueError
  end.

(** Modelled from the spec: the reading side of the encoding, which is not
    in [i2cio.py]: a 16-bit word taken as a two's-complement number. *)
Definition to_signed16 (n : Z) : Z := if n <? 32768 then n else n - 65536.

(** Modelled from the spec: [decode], the signed word as a fraction of
    full scale. *)
Definition decode_sample (n : Z) : Q := (inject_Z (to_signed16 n) / inject_Z 32768)%Q.

(** [samples[self.idx % len(samples)]] *)
Definition sample_at (l : list pyfloat) (i : nat) : result pyfloat :=
  match l with
  | [] => Raise ZeroDivisionError
  | _ => match nth_error l (i mod List.length l)%nat with
         | Some v => Ok v
         | None => Raise IndexError
         end
  end.

Definition too_big_message (val : Z) : string :=
  ("Value too big - " ++ str_of_int val ++ " - replacing with 0")%string.

(** [add_value]: returns the byte array once extended. *)
Definition add_value (bytes : list byte) (key : axis) : M MockIoDataProvider (list byte) :=
  p <- get ;;
  sample_val <- lift (sample_at (samples_at (samples p) key) (idx p)) ;;
  val <- lift (convert_value sample_val) ;;
  b <- try_except (lift (to_bytes val 2))
         (fun e => match e with OverflowError => true | _ => false end)
         (fun _ => print (too_big_message val) ;; lift (to_bytes 0 2)) ;;
  ret (bytes ++ b).

(** The two bytes [add_value] appends for the sample of [key] under
    cursor [i] when that sample converts to a 16-bit word (empty
    otherwise); used to state what a block holds. *)
Definition encoded_at (w : waveform) (key : axis) (i : nat) : list byte :=
  match sample_at (samples_at w key) i with
  | Ok v => match convert_value v with
            | Ok n => be_digits 2 n
            | Raise _ => []
            end
  | Raise _ => []
  end.

(** The six bytes of the sample set under cursor [i]: x, y, z. *)
Definition sample_set_at (w : waveform) (i : nat) : list byte :=
  encoded_at w AxisX i ++ encoded_at w AxisY i ++ encoded_at w AxisZ i.

(** A sample [convert_value] returns on: a finite one whose product with
    32768 is finite. *)
Definition convertible (v : pyfloat) : Prop := exists n, convert_value v = Ok n.


(** The sample of [key] drawn under cursor [i], at position [i] modulo the
    length of that axis, is in the encodable range: it converts to a word
    of 16 bits. *)
Definition encodable_at (w : waveform) (key : axis) (i : nat) : Prop :=
  exists v n,
    nth_error (samples_at w key) (i mod List.length (samples_at w key))%nat = Some v /\
    convert_value v = Ok n /\ 0 <= n < 65536.

(** The loop of the FIFO branch, [for i in range(0, to_read)]. *)
Fixpoint fifo_loop (to_read : nat) (bytes : list byte) : M MockIoDataProvider (list byte) :=
  match to_read with
  | O => ret bytes
  | S n =>
      bytes <- add_value bytes AxisX ;;
      bytes <- add_value bytes AxisY ;;
      bytes <- add_value bytes AxisZ ;;
      incr_idx ;;
      fifo_loop n bytes
  end.

(** [[x.to_bytes(1, 'big') for x in range(length)]] *)
Fixpoint placeholder_bytes (xs : list Z) : result (list (list byte)) :=
  match xs with
  | [] => Ok []
  | x :: rest =>
      match to_bytes x 1 with
      | Ok b => match placeholder_bytes rest with
                | Ok bs => Ok (b :: bs)
                | Raise e => Raise e
                end
      | Raise e => Raise e
      end
  end.

(** [range(n)] *)
Definition range (n : Z) : list Z := map Z.of_nat (seq 0 (Z.to_nat n)).

(** [provide(register, length=None)] *)
Definition provide `{mpu6050} (register : Z) (length : option Z)
  : M MockIoDataProvider pyval :=
  if register =? MPU6050_RA_INT_STATUS then ret (PInt 1)
  else if register =? MPU6050_RA_FIFO_COUNTH then ret (PIntList [0; 36])
  else if register =? MPU6050_RA_FIFO_R_W then
    match length with
    | None => raise TypeError
    | Some length =>
        let to_read := length / 6 in
        bytes <- fifo_loop (Z.to_nat to_read) [] ;;
        sleep to_read ;;
        ret (PByteArray bytes)
    end
  else
    match length with
    | None => ret (PInt 0)
    | Some length =>
        l <- lift (placeholder_bytes (range length)) ;;
        ret (PBytesList l)
    end.

(** *** mockIO *)

(** A data provider as the transport sees it: a callable with its own
    state [P], called with a register and, from [read_block], a length;
    it answers [None] or a value, or raises. *)
Definition data_provider_fn (P V : Type) : Type := Z -> option Z -> M P (option V).

Record mockIO (P V : Type) : Type := {
  values_written : list (Z * Z * Z);
  data_provider : option (data_provider_fn P V);
  provider_self : P;
  vals_to_read : list V
}.
Arguments values_written {P V} _.
Arguments data_provider {P V} _.
Arguments provider_self {P V} _.
Arguments vals_to_read {P V} _.

(** [mockIO.__init__] *)
Definition init_mockIO {P V} (dp : option (data_provider_fn P V)) (p : P) : mockIO P V :=
  {| values_written := []; data_provider := dp; provider_self := p; vals_to_read := [] |}.

(** [write] *)
Definition write {P V} (i2c_address register val : Z) : M (mockIO P V) unit :=
  modify (fun io => {| values_written := values_written io ++ [(i2c_address, register, val)];
                       data_provider := data_provider io;
                       provider_self := provider_self io;
                       vals_to_read := vals_to_read io |}).

(** The transport once its queue is down to [rest]. *)
Definition with_queue {P V} (io : mockIO P V) (rest : list V) : mockIO P V :=
  {| values_written := values_written io;
     data_provider := data_provider io;
     provider_self := provider_self io;
     vals_to_read := rest |}.

(** The transport once its provider has moved on to [p']. *)
Definition with_provider_self {P V} (io : mockIO P V) (p' : P) : mockIO P V :=
  {| values_written := values_written io;
     data_provider := data_provider io;
     provider_self := p';
     vals_to_read := vals_to_read io |}.

(** [self.vals_to_read.get_nowait()] *)
Definition get_nowait {P V} : M (mockIO P V) V :=
  fun io => match vals_to_read io with
            | [] => (Raise Empty, io)
            | v :: rest => (Ok v, with_queue io rest)
            end.

(** Calling [self.data_provider(...)]: runs on the provider's own state. *)
Definition call_provider {P V} (f : data_provider_fn P V) (register : Z) (length : option Z)
  : M (mockIO P V) (option V) :=
  fun io => match f register length (provider_self io) with
            | (r, p') => (r, with_provider_self io p')
            end.

Definition read_with {P V} (register : Z) (length : option Z) : M (mockIO P V) V :=
  io <- get ;;
  match data_provider io with
  | Some f =>
      ret_ <- call_provider f register length ;;
      match ret_ with
      | Some v => ret v
      | None => get_nowait
      end
  | None => get_nowait
  end.

(** [read_block] *)
Definition read_block {P V} (i2c_address register length : Z) : M (mockIO P V) V :=
  read_with register (Some length).


(** The bound method [provider.provide] as a data provider. *)
Definition provide_fn `{mpu6050} : data_provider_fn MockIoDataProvider pyval :=
  fun register length => v <- provide register length ;; ret (Some v).

(** The MPU-6050 register map numbers of the three registers. *)
Definition mpu6050_regs : mpu6050 :=
  {| MPU6050_RA_INT_STATUS := 58; MPU6050_RA_FIFO_COUNTH := 114; MPU6050_RA_FIFO_R_W := 116 |}.

(** A short waveform for the examples: x holds full scale and half scale,
    y a negative half, z three values of which two do not fit 16 bits. *)
Definition example_wave : waveform :=
  {| wave_x := [Finite 1; Finite (1 # 2)];
     wave_y := [Finite (- (1 # 2))];
     wave_z := [Finite 3; Finite 0; Finite (- 3)] |}.

(** A waveform whose every value fits 16 bits. *)
Definition small_wave : waveform :=
  {| wave_x := [Finite (1 # 2); Finite (1 # 4)];
     wave_y := [Finite (- (1 # 2))];
     wave_z := [Finite 0; Finite (1 # 32768); Finite (- (1 # 32768))] |}.

(** A transport wired to a provider over [w]. *)
Definition example_io `{mpu6050} (w : waveform) : mockIO MockIoDataProvider pyval :=
  init_mockIO (Some provide_fn) (init_provider w).

(** *** WavProvider *)

(** [struct.unpack('d', b)] on eight bytes: the float they hold in the
    byte order of the platform.  The [struct] module is Python's. *)
Class struct_module : Type := {
  unpack_d : list byte -> pyfloat
}.

(** [struct.unpack('d' * n, data)] on [8 * n] bytes. *)
Fixpoint unpack_doubles `{struct_module} (n : nat) (data : list byte) : list pyfloat :=
  match n with
  | O => []
  | S k => unpack_d (firstn 8 data) :: unpack_doubles k (skipn 8 data)
  end.

(** [WavProvider.__init__] on a file whose content is [file]: the size is
    checked, the doubles are unpacked and the same list is played on the
    three axes.  ([int(sz / 8)] is [sz / 8] for every size a float holds
    exactly.) *)
Definition WavProvider `{struct_module} (file : list byte) : result MockIoDataProvider :=
  let sz := Z.of_nat (List.length file) in
  if negb (sz mod 8 =? 0) then Raise ValueError
  else
    let data := unpack_doubles (Z.to_nat (sz / 8)) file in
    Ok (init_provider {| wave_x := data; wave_y := data; wave_z := data |}).

(** The 64 bits of eight bytes, least significant byte first. *)
Definition le_bits (bs : list byte) : Z :=
  fold_right (fun b acc => Z_of_byte b + 256 * acc) 0 bs.

(** The binary64 value of 64 bits. *)
Definition binary64_value (bits : Z) : pyfloat :=
  let negative := Z.testbit bits 63 in
  let e := Z.land (Z.shiftr bits 52) 2047 in
  let m := Z.land bits (2 ^ 52 - 1) in
  if e =? 2047 then
    if m =? 0 then (if negative then NegInf else PosInf) else NaN
  else
    let significand := if e =? 0 then m else m + 2 ^ 52 in
    let exponent := if e =? 0 then - 1074 else e - 1075 in
    let magnitude :=
      if 0 <=? exponent then inject_Z (significand * 2 ^ exponent)
      else Qmake significand (Z.to_pos (2 ^ (- exponent))) in
    Finite (if negative then (- magnitude)%Q else magnitude).

(** [struct] on a little-endian platform, for the examples. *)
Definition struct_le : struct_module := {| unpack_d := fun b => binary64_value (le_bits b) |}.

(** The doubles 0.5, -0.25 and 1.0 as they stand in a file. *)
Definition example_file : list byte :=
  [x00; x00; x00; x00; x00; x00; xe0; x3f;
   x00; x00; x00; x00; x00; x00; xd0; xbf;
   x00; x00; x00; x00; x00; x00; xf0; x3f].

(** *** Sequences of calls and classes of samples, to state properties *)

(** Writes made one after the other. *)
Fixpoint writes {P V} (ws : list (Z * Z * Z)) : M (mockIO P V) unit :=
  match ws with
  | [] => ret tt
  | (a, r, v) :: rest => write a r v ;; writes rest
  end.

(** Reads made one after the other, each with its register and, for a
    [read_block], its length; the values read, in order. *)
Fixpoint reads {P V} (rs : list (Z * option Z)) : M (mockIO P V) (list V) :=
  match rs with
  | [] => ret []
  | (register, length) :: rest =>
      v <- read_with register length ;;
      vs <- reads rest ;;
      ret (v :: vs)
  end.

(** A sample [convert_value] raises on: an infinity, a NaN, or a finite
    value whose product with 32768 is no finite double. *)
Definition unconvertible (v : pyfloat) : Prop :=
  match v with
  | Finite q => ~ in_double_range q
  | PosInf | NegInf | NaN => True
  end.

(** What [int] raises on it. *)
Definition conversion_error (v : pyfloat) : exn :=
  match v with
  | NaN => ValueError
  | _ => OverflowError
  end.

(** [L] is a whole number of rounds of every axis of [w]. *)
Definition whole_rounds (w : waveform) (L : nat) : Prop :=
  forall key, exists c, L = (c * List.length (samples_at w key))%nat.


(** The value a 16-bit word stands for when read as two's complement,
    after [convert_value]. *)
Definition signed_word (v : pyfloat) : result Z :=
  match convert_value v with
  | Ok n => Ok (to_signed16 n)
  | Raise e => Raise e
  end.

End I2cio.

(** ** qvibe/interface.py *)

Module Interface.

Local Open Scope string_scope.

(** [class Command(Enum)] *)
Inductive Command : Type := GET | SET | STR.

(** [Command[name]]: lookup by member name, [KeyError] otherwise. *)
Definition Command_of_name (name : string) : result Command :=
  if String.eqb name "GET" then Ok GET
  else if String.eqb name "SET" then Ok SET
  else if String.eqb name "STR" then Ok STR
  else Raise KeyError.

(** The Python values [json.loads] builds and [json.dumps] writes.  A
    number is kept as the text [json.dumps] writes for it; an object is
    the [dict], its items in insertion order. *)
#[warnings="-register-all"] Inductive json : Type :=
| JNull
| JBool (b : bool)
| JNum (text : string)
| JStr (s : string)
| JArr (l : list json)
| JObj (m : list (string * json)).

(** The two functions of Python's [json] module the protocol calls.
    [json_loads] raises on text that is not a JSON document; [json_dumps]
    raises on a value it cannot write: [TypeError] on an object that is
    not serialisable, [RecursionError] on a document nested deeper than
    the interpreter allows at the point of the call. *)
Class JsonCodec : Type := {
  json_dumps : json -> result string;
  json_loads : string -> result json
}.

(** Python [str] values are kept as the bytes of their UTF-8 encoding, so
    [line.decode()] is a validity check on the received bytes. *)
Definition between (b : byte) (lo hi : Z) : bool :=
  ((lo <=? Z_of_byte b) && (Z_of_byte b <=? hi))%Z.

(** Well-formed UTF-8 byte sequences (Unicode, table 3-7): no overlong
    form, no surrogate, nothing above U+10FFFF. *)
Fixpoint utf8_valid (l : list byte) : bool :=
  match l with
  | [] => true
  | b0 :: t0 =>
      if between b0 0 127 then utf8_valid t0
      else
        match t0 with
        | [] => false
        | b1 :: t1 =>
            if between b0 194 223 then between b1 128 191 && utf8_valid t1
            else
              match t1 with
              | [] => false
              | b2 :: t2 =>
                  if between b0 224 224 then
                    between b1 160 191 && between b2 128 191 && utf8_valid t2
                  else if between b0 225 236 || between b0 238 239 then
                    between b1 128 191 && between b2 128 191 && utf8_valid t2
                  else if between b0 237 237 then
                    between b1 128 159 && between b2 128 191 && utf8_valid t2
                  else
                    match t2 with
                    | [] => false
                    | b3 :: t3 =>
                        if between b0 240 240 then
                          between b1 144 191 && between b2 128 191
                          && between b3 128 191 && utf8_valid t3
                        else if between b0 241 243 then
                          between b1 128 191 && between b2 128 191
                          && between b3 128 191 && utf8_valid t3
                        else if between b0 244 244 then
                          between b1 128 143 && between b2 128 191
                          && between b3 128 191 && utf8_valid t3
                        else false
                    end
              end
        end
  end.

(** [line.decode()] *)
Definition decode (line : list byte) : result string :=
  if utf8_valid line then Ok (string_of_list_byte line) else Raise UnicodeDecodeError.

(** [s.split('|')] *)
Fixpoint split_pipe (s : string) : list string :=
  match s with
  | EmptyString => [EmptyString]
  | String c rest =>
      if Ascii.eqb c "|" then EmptyString :: split_pipe rest
      else
        match split_pipe rest with
        | tok :: toks => String c tok :: toks
        | [] => [String c EmptyString]
        end
  end.

(** Whether ['|'] occurs in [s]. *)
Fixpoint has_pipe (s : string) : bool :=
  match s with
  | EmptyString => false
  | String c rest => Ascii.eqb c "|" || has_pipe rest
  end.

(** A registered device: its state, its self test results and the handler
    chain it feeds, the latter known by an identifier only. *)
Record Device : Type := {
  state : json;
  self_test_results : json;
  data_handler : nat
}.

(** The [devices] dict, its items in insertion order. *)
Definition registry : Type := list (string * Device).

(** [devices[name]], [None] when [name not in devices]. *)
Fixpoint lookup (name : string) (ds : registry) : option Device :=
  match ds with
  | [] => None
  | (k, d) :: rest => if String.eqb k name then Some d else lookup name rest
  end.

(** [devices[name].state = st] *)
Fixpoint set_state (name : string) (st : json) (ds : registry) : registry :=
  match ds with
  | [] => []
  | (k, d) :: rest =>
      if String.eqb k name then
        (k, {| state := st; self_test_results := self_test_results d;
               data_handler := data_handler d |}) :: rest
      else (k, d) :: set_state name st rest
  end.

(** What the protocol does to the world outside the registry. *)
Inductive event : Type :=
| SendLine (line : string)
| Accept (handler : nat) (socket_handler : bool)
| LogInfo (line : list byte)
| LogException (line : list byte) (e : exn).

(** A [CommandProtocol] instance together with the registry it shares and
    the effects it has had so far. *)
Record CommandProtocol : Type := {
  devices : registry;
  handlers : list nat;
  trace : list event
}.

Definition emit (e : event) : M CommandProtocol unit :=
  modify (fun p => {| devices := devices p; handlers := handlers p;
                      trace := trace p ++ [e] |}).

Fixpoint emit_all (es : list event) : M CommandProtocol unit :=
  match es with
  | [] => ret tt
  | e :: rest => emit e ;; emit_all rest
  end.

(** [CommandProtocol.__init__]: every device's handler chain is told
    [accept(None)]; what that returns is kept, under the chain's
    identifier, in [self.handlers]. *)
Definition init_protocol (ds : registry) : CommandProtocol :=
  {| devices := ds;
     handlers := map (fun kd => data_handler (snd kd)) ds;
     trace := map (fun kd => Accept (data_handler (snd kd)) false) ds |}.

(** The text of a length prefixed frame, [f"{len(y)}|{y}"].  [json.dumps]
    writes ASCII only, so the characters [len] counts are the bytes counted
    here. *)
Definition frame (y : string) : string :=
  str_of_int (Z.of_nat (String.length y)) ++ "|" ++ y.

(** [send_device_state]: nothing is sent when [json.dumps] raises. *)
Definition send_device_state `{JsonCodec} (device_state : json) : M CommandProtocol unit :=
  y <- lift (json_dumps device_state) ;;
  emit (SendLine (frame y)).

(** [send_all_device_states] *)
Definition send_all_device_states `{JsonCodec} : M CommandProtocol unit :=
  p <- get ;;
  send_device_state (JArr (map (fun kd => state (snd kd)) (devices p))).

(** [connectionMade]: the states are sent outside any [try]; when that
    raises, no handler chain is told of the connection. *)
Definition connectionMade `{JsonCodec} : M CommandProtocol unit :=
  send_all_device_states ;;
  p <- get ;;
  emit_all (map (fun h => Accept h true) (handlers p)).

(** [connectionLost] *)
Definition connectionLost : M CommandProtocol unit :=
  p <- get ;;
  emit_all (map (fun h => Accept h false) (handlers p)).

(** [tokens[i]] *)
Definition token (tokens : list string) (i : nat) : result string :=
  match nth_error tokens i with
  | Some t => Ok t
  | None => Raise IndexError
  end.

(** [needle in s] on two strings. *)
Fixpoint str_contains (needle s : string) : bool :=
  String.prefix needle s
  || match s with
     | EmptyString => false
     | String _ rest => str_contains needle rest
     end.

Definition is_str (s : string) (j : json) : bool :=
  match j with
  | JStr t => String.eqb s t
  | _ => false
  end.

(** [d[key]] on the items of a dict, [None] when the key is absent. *)
Fixpoint dict_get (key : string) (m : list (string * json)) : option json :=
  match m with
  | [] => None
  | (k, v) :: rest => if String.eqb k key then Some v else dict_get key rest
  end.

(** ['name' in target_state]: a key test on a dict, a membership test on
    a list, a substring test on a string, a [TypeError] on the rest. *)
Definition contains_name (target_state : json) : result bool :=
  match target_state with
  | JObj m => Ok (match dict_get "name" m with Some _ => true | None => false end)
  | JArr l => Ok (existsb (is_str "name") l)
  | JStr s => Ok (str_contains "name" s)
  | JNull | JBool _ | JNum _ => Raise TypeError
  end.

(** [target_state['name']] *)
Definition getitem_name (target_state : json) : result json :=
  match target_state with
  | JObj m => match dict_get "name" m with
              | Some v => Ok v
              | None => Raise KeyError
              end
  | _ => Raise TypeError
  end.

(** [key in self.devices]: lists and dicts are not hashable; of the
    hashable values only a string can equal a device name. *)
Definition in_devices (key : json) (ds : registry) : result (option string) :=
  match key with
  | JStr s => Ok (match lookup s ds with Some _ => Some s | None => None end)
  | JArr _ | JObj _ => Raise TypeError
  | JNull | JBool _ | JNum _ => Ok None
  end.

Definition assign_state (name : string) (st : json) : M CommandProtocol unit :=
  modify (fun p => {| devices := set_state name st (devices p);
                      handlers := handlers p; trace := trace p |}).

(** [handle_set]: the state is assigned before it is echoed, so it stays
    assigned when the echo raises. *)
Definition handle_set `{JsonCodec} (tokens : list string) : M CommandProtocol unit :=
  arg <- lift (token tokens 1) ;;
  target_state <- lift (json_loads arg) ;;
  has_name <- lift (contains_name target_state) ;;
  if has_name : bool then
    name <- lift (getitem_name target_state) ;;
    p <- get ;;
    known <- lift (in_devices name (devices p)) ;;
    match known with
    | Some device_name =>
        assign_state device_name target_state ;;
        send_device_state target_state
    | None => ret tt
    end
  else ret tt.

(** The SET argument names a registered device: it is the second token, it
    parses as an object, and the object's [name] is a registered key. *)
Definition names_device `{JsonCodec} (tokens : list string) (p : CommandProtocol)
    (m : list (string * json)) (name : string) (d : Device) : Prop :=
  exists arg,
    nth_error tokens 1 = Some arg /\ json_loads arg = Ok (JObj m) /\
    dict_get "name" m = Some (JStr name) /\ lookup name (devices p) = Some d.

(** The entry the [except] clauses of [lineReceived] leave in the log for
    an exception. *)
Definition log_entry (line : list byte) (e : exn) : event :=
  match e with
  | KeyError => LogInfo line
  | _ => LogException line e
  end.

(** The protocol after an accepted SET: the device's state replaced, and
    one effect more, the echo or the log entry of its failure. *)
Definition after_set (p : CommandProtocol) (name : string) (target_state : json) (e : event)
  : CommandProtocol :=
  {| devices := set_state name target_state (devices p);
     handlers := handlers p;
     trace := (trace p ++ [e])%list |}.

(** [handle_get] *)
Definition handle_get `{JsonCodec} (tokens : list string) : M CommandProtocol unit :=
  if Nat.eqb (List.length tokens) 1 then send_all_device_states
  else
    device_name <- lift (token tokens 1) ;;
    p <- get ;;
    match lookup device_name (devices p) with
    | Some d => send_device_state (state d)
    | None => ret tt
    end.

(** [handle_str] *)
Definition handle_str `{JsonCodec} (tokens : list string) : M CommandProtocol unit :=
  if Nat.eqb (List.length tokens) 2 then
    device_name <- lift (token tokens 1) ;;
    p <- get ;;
    match lookup device_name (devices p) with
    | Some d =>
        y <- lift (json_dumps (self_test_results d)) ;;
        emit (SendLine y)
    | None => ret tt
    end
  else ret tt.

(** The body of the [try] in [lineReceived]. *)
Definition dispatch `{JsonCodec} (tokens : list string) : M CommandProtocol unit :=
  name <- lift (token tokens 0) ;;
  cmd <- lift (Command_of_name name) ;;
  match cmd with
  | GET => handle_get tokens
  | SET => handle_set tokens
  | STR => handle_str tokens
  end.

(** The two [except] clauses of [lineReceived]. *)
Definition log_failure (line : list byte) (e : exn) : M CommandProtocol unit :=
  match e with
  | KeyError => emit (LogInfo line)
  | _ => emit (LogException line e)
  end.

(** [lineReceived]: the line is decoded and split before the [try]. *)
Definition lineReceived `{JsonCodec} (line : list byte) : M CommandProtocol unit :=
  text <- lift (decode line) ;;
  let tokens := split_pipe text in
  try_except (dispatch tokens) (fun _ => true) (log_failure line).

(** The lines of a connection as they arrive, up to the first one whose
    handling raises. *)
Fixpoint receive_all `{JsonCodec} (lines : list (list byte)) : M CommandProtocol unit :=
  match lines with
  | [] => ret tt
  | l :: rest => lineReceived l ;; receive_all rest
  end.

(** A connection whose [connectionMade] returns: the lines follow it.
    What the framework does with a connection whose [connectionMade] has
    raised is not modelled; [serve] ends there. *)
Definition serve `{JsonCodec} (lines : list (list byte)) : M CommandProtocol unit :=
  connectionMade ;; receive_all lines.

(** A computation that only ever adds effects to the trace. *)
Definition grows {A} (c : M CommandProtocol A) : Prop :=
  forall p, exists es, trace (snd (c p)) = (trace p ++ es)%list.

(** The frames among the effects. *)
Definition sent (es : list event) : list string :=
  flat_map (fun e => match e with SendLine l => [l] | _ => [] end) es.

(** *** A codec and a registry for the examples *)

Definition dq : string := String "034" EmptyString.

Definition quoted (s : string) : string := dq ++ s ++ dq.

Fixpoint join (sep : string) (l : list string) : string :=
  match l with
  | [] => ""
  | [s] => s
  | s :: rest => s ++ sep ++ join sep rest
  end.

(** Writes a value the way [json.dumps] does with its default separators,
    for strings that need no escape. *)
Fixpoint write_json (j : json) : string :=
  match j with
  | JNull => "null"
  | JBool true => "true"
  | JBool false => "false"
  | JNum text => text
  | JStr s => quoted s
  | JArr l => "[" ++ join ", " (map write_json l) ++ "]"
  | JObj m => "{" ++ join ", " (map (fun kv => quoted (fst kv) ++ ": " ++ write_json (snd kv)) m) ++ "}"
  end.

(** Reads the documents of a table, and takes any other text for
    malformed. *)
Fixpoint read_json (table : list (string * json)) (s : string) : result json :=
  match table with
  | [] => Raise JSONDecodeError
  | (text, j) :: rest => if String.eqb text s then Ok j else read_json rest s
  end.

Definition imu0_rate (n : string) : json := JObj [("name", JStr "imu0"); ("rate", JNum n)].

Definition set_rate_200 : string :=
  "{" ++ quoted "name" ++ ":" ++ quoted "imu0" ++ "," ++ quoted "rate" ++ ":200}".

Definition set_unknown : string := "{" ++ quoted "name" ++ ":" ++ quoted "unknown" ++ "}".

(** How deep the arrays and objects of a value nest. *)
Fixpoint depth (j : json) : nat :=
  match j with
  | JArr l => S (fold_right (fun x acc => Nat.max (depth x) acc) 0%nat l)
  | JObj m => S (fold_right (fun kv acc => Nat.max (depth (snd kv)) acc) 0%nat m)
  | _ => 0%nat
  end.

(** A state for [imu0] that nests four deep, and the text of it. *)
Definition nested_state : json :=
  JObj [("name", JStr "imu0"); ("cal", JArr [JArr [JArr []]])].

Definition set_nested : string :=
  "{" ++ quoted "name" ++ ":" ++ quoted "imu0" ++ "," ++ quoted "cal" ++ ":[[[]]]}".

Definition example_table : list (string * json) :=
  [(set_rate_200, imu0_rate "200");
   (set_unknown, JObj [("name", JStr "unknown")]);
   (set_nested, nested_state)].

Definition example_codec : JsonCodec :=
  {| json_dumps := fun j => Ok (write_json j);
     json_loads := read_json example_table |}.

(** The same module at work close to the recursion limit: [dumps], called
    one frame deeper than [loads], raises [RecursionError] on a document
    that nests deeper than [limit], which [loads] has still read. *)
Definition limited_codec (limit : nat) : JsonCodec :=
  {| json_dumps := fun j => if (depth j <=? limit)%nat then Ok (write_json j)
                            else Raise RecursionError;
     json_loads := read_json example_table |}.

Definition example_registry : registry :=
  [("imu0", {| state := imu0_rate "100"; self_test_results := JObj []; data_handler := 0 |})].

Definition bytes_of (s : string) : list byte := list_byte_of_string s.

(** The frame that carries the state of [imu0] at a three digit rate. *)
Definition frame_imu0 (rate : string) : string :=
  "29|{" ++ quoted "name" ++ ": " ++ quoted "imu0" ++ ", " ++ quoted "rate" ++ ": " ++ rate ++ "}".

(** *** SocketHandler *)

(** The error token [ERROR] of [qvibe.handler], a module outside the
    modelled sources. *)
Class handler_module : Type := {
  ERROR : string
}.

(** A [SocketHandler]: the protocol it writes to, and what it has handed to
    [logger.error]. *)
Record SocketHandler : Type := {
  protocol : CommandProtocol;
  unknown_data : list json
}.

(** [self.protocol.sendLine(line)] *)
Definition protocol_sendLine (line : string) : M SocketHandler unit :=
  modify (fun h => {| protocol := {| devices := devices (protocol h);
                                     handlers := handlers (protocol h);
                                     trace := (trace (protocol h) ++ [SendLine line])%list |};
                      unknown_data := unknown_data h |}).

(** [logger.error(f"Unknown data type ...")] *)
Definition log_unknown (datum : json) : M SocketHandler unit :=
  modify (fun h => {| protocol := protocol h;
                      unknown_data := (unknown_data h ++ [datum])%list |}).

(** The body of the loop of [SocketHandler.handle]; [json.dumps] is called
    outside any [try]. *)
Definition handle_datum `{JsonCodec} `{handler_module} (datum : json) : M SocketHandler unit :=
  match datum with
  | JObj _ => y <- lift (json_dumps datum) ;; protocol_sendLine y
  | JArr _ => y <- lift (json_dumps datum) ;; protocol_sendLine y
  | _ => if is_str ERROR datum then protocol_sendLine ERROR else log_unknown datum
  end.

(** [SocketHandler.handle]: the loop ends at the first datum that raises. *)
Fixpoint handle `{JsonCodec} `{handler_module} (data : list json) : M SocketHandler unit :=
  match data with
  | [] => ret tt
  | datum :: rest => handle_datum datum ;; handle rest
  end.

(** The line [handle] sends for a datum, if it sends one, or what
    [json.dumps] raises on it. *)
Definition forwarded `{JsonCodec} `{handler_module} (datum : json) : result (list string) :=
  match datum with
  | JObj _ | JArr _ =>
      match json_dumps datum with
      | Ok y => Ok [y]
      | Raise e => Raise e
      end
  | _ => Ok (if is_str ERROR datum then [ERROR] else [])
  end.

(** The lines [handle] sends for data it gets through, and the data it
    hands to the error log. *)
Definition lines_of `{JsonCodec} `{handler_module} (data : list json) : list string :=
  flat_map (fun datum => match forwarded datum with Ok l => l | Raise _ => [] end) data.

Definition unknown_of `{JsonCodec} `{handler_module} (data : list json) : list json :=
  flat_map (fun datum => match forwarded datum with Ok [] => [datum] | _ => [] end) data.

(** [CommandFactory.buildProtocol] *)
Definition buildProtocol (factory_devices : registry) : CommandProtocol :=
  init_protocol factory_devices.

(** *** Shapes of registries and traces, to state properties *)

(** The protocol after one more line sent. *)
Definition after_send (p : CommandProtocol) (line : string) : CommandProtocol :=
  {| devices := devices p; handlers := handlers p;
     trace := (trace p ++ [SendLine line])%list |}.

(** The protocol after one more effect. *)
Definition after_event (p : CommandProtocol) (e : event) : CommandProtocol :=
  {| devices := devices p; handlers := handlers p; trace := (trace p ++ [e])%list |}.

(** What of a registry no command touches: the keys in their order, and per
    device the self test results and the handler chain. *)
Definition skeleton (ds : registry) : list (string * json * nat) :=
  map (fun kd => (fst kd, self_test_results (snd kd), data_handler (snd kd))) ds.

(** Every device's state is an object whose [name] is the device's key. *)
Definition well_named (ds : registry) : Prop :=
  forall k d, In (k, d) ds ->
    exists m, state d = JObj m /\ dict_get "name" m = Some (JStr k).

(** The calls to the handler chains among the effects. *)
Definition accepts (es : list event) : list (nat * bool) :=
  flat_map (fun e => match e with Accept h b => [(h, b)] | _ => [] end) es.

(** An example registry of two well named devices. *)
Definition two_devices : registry :=
  [("imu0", {| state := imu0_rate "100"; self_test_results := JObj []; data_handler := 0 |});
   ("imu1", {| state := JObj [("name", JStr "imu1")]; self_test_results := JArr [JBool true];
               data_handler := 1 |})].

(** The error token as a string, for the examples. *)
Definition example_handler_module : handler_module := {| ERROR := "error" |}.

End Interface.

(** * Properties *)


(** ** The sample encoding of [i2cio.py] *)

Module Encoding.
Import I2cio.

(** Integer facts about truncating division. *)
Lemma quot_bounds_nonneg a d : 0 <= a -> 0 < d ->
  0 <= Z.quot a d /\ Z.quot a d * d <= a < (Z.quot a d + 1) * d.
Proof.
  intros Ha Hd.
  pose proof (Z.quot_rem' a d) as E.
  pose proof (Z.rem_bound_pos a d Ha Hd) as B.
  pose proof (Z.quot_pos a d Ha Hd) as P.
  split; [assumption | nia].
Qed.

Lemma quot_bounds_nonpos a d : a <= 0 -> 0 < d ->
  Z.quot a d <= 0 /\ (Z.quot a d - 1) * d < a <= Z.quot a d * d.
Proof.
  intros Ha Hd.
  destruct (quot_bounds_nonneg (- a) d) as [P B]; [lia | assumption |].
  rewrite Z.quot_opp_l in P, B by lia.
  split; nia.
Qed.

(** [Qtrunc] lies between its argument and zero, less than one away. *)
Lemma Qtrunc_nonneg q : (0 <= q)%Q ->
  0 <= Qtrunc q /\ (inject_Z (Qtrunc q) <= q /\ q < inject_Z (Qtrunc q) + 1)%Q.
Proof.
  destruct q as [n d]. unfold Qle, Qlt, Qtrunc, inject_Z. simpl.
  intros H.
  destruct (quot_bounds_nonneg n (Zpos d)) as [P B]; lia.
Qed.

Lemma Qtrunc_nonpos q : (q <= 0)%Q ->
  Qtrunc q <= 0 /\ (inject_Z (Qtrunc q) - 1 < q /\ q <= inject_Z (Qtrunc q))%Q.
Proof.
  destruct q as [n d]. unfold Qle, Qlt, Qtrunc, inject_Z. simpl.
  intros H.
  destruct (quot_bounds_nonpos n (Zpos d)) as [P B]; lia.
Qed.

Lemma Qtrunc_near q : (Qabs (inject_Z (Qtrunc q) - q) < 1)%Q.
Proof.
  apply Qabs_Qlt_condition.
  destruct (Qlt_le_dec q 0) as [Hn | Hp].
  - destruct (Qtrunc_nonpos q) as [_ [A B]]; [lra | lra].
  - destruct (Qtrunc_nonneg q Hp) as [_ [A B]]. lra.
Qed.

Lemma DBL_MAX_large : 2 ^ 1000 <= DBL_MAX.
Proof. vm_compute. discriminate. Qed.

Lemma fmul_32768_finite q : in_double_range q -> fmul_32768 (Finite q) = Finite (scaled q).
Proof.
  unfold in_double_range, scaled, fmul_32768. intros H.
  apply Qle_bool_iff in H. rewrite H. reflexivity.
Qed.

Lemma convert_value_finite q : in_double_range q ->
  convert_value (Finite q) =
  Ok (if 0 <=? Qtrunc (scaled q) then Qtrunc (scaled q) else 65536 + Qtrunc (scaled q)).
Proof.
  intros H. unfold convert_value. rewrite (fmul_32768_finite q H). reflexivity.
Qed.

Lemma small_in_double_range q : (Qabs q <= 4)%Q -> in_double_range q.
Proof.
  intros H. unfold in_double_range, scaled.
  rewrite Qabs_Qmult.
  assert (E : (Qabs (inject_Z 32768) == 32768 # 1)%Q) by reflexivity.
  rewrite E.
  apply Qle_trans with (inject_Z (2 ^ 1000)).
  - apply Qle_trans with (4 * (32768 # 1))%Q.
    + apply Qmult_le_compat_r; [exact H | discriminate].
    + vm_compute. discriminate.
  - rewrite <- Zle_Qle. apply DBL_MAX_large.
Qed.


Ltac zbool :=
  repeat match goal with
         | |- context [?a <=? ?b] => destruct (Z.leb_spec a b)
         | |- context [?a <? ?b] => destruct (Z.ltb_spec a b)
         end.

Lemma scaled_bound q b : (Qabs q < inject_Z b)%Q -> (Qabs (scaled q) < inject_Z (b * 32768))%Q.
Proof.
  intros H. unfold scaled. rewrite inject_Z_mult.
  apply Qabs_Qlt_condition in H. apply Qabs_Qlt_condition.
  unfold inject_Z in *. lra.
Qed.

(** Truncation moves toward zero, so it keeps an integer bound. *)
Lemma Qtrunc_within x b : (Qabs x < inject_Z b)%Q -> - b < Qtrunc x < b.
Proof.
  intros H. apply Qabs_Qlt_condition in H. destruct H as [L U].
  assert (P : 0 < b) by (rewrite Zlt_Qlt; unfold inject_Z in *; lra).
  destruct (Qlt_le_dec x 0) as [Hn | Hp].
  - destruct (Qtrunc_nonpos x) as [S [A B]]; [lra |].
    split; [| lia].
    rewrite Zlt_Qlt, inject_Z_opp. lra.
  - destruct (Qtrunc_nonneg x Hp) as [S [A B]].
    split; [lia |].
    rewrite Zlt_Qlt. lra.
Qed.

Lemma to_signed16_wrap i : -32768 <= i < 32768 ->
  to_signed16 (if 0 <=? i then i else 65536 + i) = i.
Proof. intros H. unfold to_signed16. zbool; lia. Qed.

(** C3: a sample below full scale survives encoding and decoding up to one
    least significant bit, [|decode(encode(v)) - v| <= 1/32768]. *)
Theorem decode_convert_value_within_lsb q :
  (Qabs q < 1)%Q ->
  exists n, convert_value (Finite q) = Ok n /\ 0 <= n < 65536 /\
            (Qabs (decode_sample n - q) <= 1 # 32768)%Q.
Proof.
  intros H.
  assert (R : in_double_range q).
  { apply small_in_double_range. apply Qlt_le_weak.
    apply Qlt_trans with 1%Q; [exact H | reflexivity]. }
  rewrite (convert_value_finite q R).
  pose proof (Qtrunc_near (scaled q)) as N.
  pose proof (Qtrunc_within (scaled q) 32768 (scaled_bound q 1 H)) as I.
  set (i := Qtrunc (scaled q)) in *.
  eexists. split; [reflexivity |]. split.
  - zbool; lia.
  - unfold decode_sample. rewrite to_signed16_wrap by lia.
    apply Qabs_Qlt_condition in N. apply Qabs_Qle_condition.
    unfold scaled in N. unfold Qdiv. 
    change (/ inject_Z 32768)%Q with (1 # 32768)%Q.
    unfold inject_Z in *. lra.
Qed.

(** C3, at a concrete sample: -0.3 is encoded as 55706 and read back within
    one bit. *)
Lemma decode_convert_value_within_lsb_witness :
  (Qabs (- (3 # 10)) < 1)%Q /\
  exists n, convert_value (Finite (- (3 # 10))) = Ok n /\ 0 <= n < 65536 /\
            (Qabs (decode_sample n - - (3 # 10)) <= 1 # 32768)%Q.
Proof.
  split; [reflexivity |].
  apply (decode_convert_value_within_lsb (- (3 # 10))). reflexivity.
Defined.

(** C2 as worded fails: at 0.75/32768 the source yields 0 where rounding
    yields 1, and at -0.75/32768 it yields 0 where rounding and wrapping
    yield 65535. *)
Lemma convert_value_not_rounded :
  convert_value (Finite (3 # 131072)) = Ok 0 /\
  spec_convert_value (Finite (3 # 131072)) = Ok 1 /\
  convert_value (Finite (- (3 # 131072))) = Ok 0 /\
  spec_convert_value (Finite (- (3 # 131072))) = Ok 65535 /\
  convert_value (Finite (3 # 131072)) <> spec_convert_value (Finite (3 # 131072)).
Proof. repeat split; try (vm_compute; reflexivity). vm_compute. discriminate. Qed.

(** C2, amended: [convert_value] truncates [v * 32768] toward zero and
    wraps a negative result by 65536; within 17 bits that is the residue
    modulo 65536. *)
Theorem convert_value_truncates q :
  in_double_range q ->
  exists i : Z,
    ((0 <= q)%Q -> 0 <= i /\ (inject_Z i <= scaled q)%Q /\ (scaled q < inject_Z i + 1)%Q) /\
    ((q <= 0)%Q -> i <= 0 /\ (inject_Z i - 1 < scaled q)%Q /\ (scaled q <= inject_Z i)%Q) /\
    convert_value (Finite q) = Ok (if 0 <=? i then i else 65536 + i) /\
    (- 65536 <= i < 65536 -> convert_value (Finite q) = Ok (i mod 65536)).
Proof.
  intros R. exists (Qtrunc (scaled q)).
  rewrite (convert_value_finite q R).
  repeat split.
  - apply Qtrunc_nonneg. unfold scaled, inject_Z. lra.
  - apply Qtrunc_nonneg. unfold scaled, inject_Z. lra.
  - apply Qtrunc_nonneg. unfold scaled, inject_Z. lra.
  - apply Qtrunc_nonpos. unfold scaled, inject_Z. lra.
  - apply Qtrunc_nonpos. unfold scaled, inject_Z. lra.
  - apply Qtrunc_nonpos. unfold scaled, inject_Z. lra.
  - intros [L U]. f_equal. zbool.
    + rewrite Z.mod_small; lia.
    + apply Z.mod_unique with (q := -1); lia.
Qed.

(** C2, amended, at -0.3: the product -9830.4 is truncated to -9830 and
    wrapped to 55706. *)
Lemma convert_value_truncates_witness :
  in_double_range (- (3 # 10)) /\
  exists i : Z,
    ((0 <= - (3 # 10))%Q ->
     0 <= i /\ (inject_Z i <= scaled (- (3 # 10)))%Q /\ (scaled (- (3 # 10)) < inject_Z i + 1)%Q) /\
    ((- (3 # 10) <= 0)%Q ->
     i <= 0 /\ (inject_Z i - 1 < scaled (- (3 # 10)))%Q /\ (scaled (- (3 # 10)) <= inject_Z i)%Q) /\
    convert_value (Finite (- (3 # 10))) = Ok (if 0 <=? i then i else 65536 + i) /\
    (- 65536 <= i < 65536 -> convert_value (Finite (- (3 # 10))) = Ok (i mod 65536)).
Proof.
  split; [vm_compute; discriminate |].
  apply (convert_value_truncates (- (3 # 10))). vm_compute. discriminate.
Defined.

Example convert_value_minus_three_tenths : convert_value (Finite (- (3 # 10))) = Ok 55706.
Proof. vm_compute. reflexivity. Qed.



(** [to_bytes] on two bytes and back. *)
Lemma Z_of_byte_of_Z z : 0 <= z < 256 -> Z_of_byte (byte_of_Z z) = z.
Proof.
  intros H. unfold byte_of_Z, Z_of_byte.
  destruct (Byte.of_N (Z.to_N z)) as [b |] eqn:E.
  - apply Byte.to_of_N in E. rewrite E. lia.
  - apply Byte.of_N_None_iff in E. lia.
Qed.

Lemma be_digits_2 n :
  be_digits 2 n = [byte_of_Z ((n / 256) mod 256); byte_of_Z (n mod 256)].
Proof. reflexivity. Qed.

Lemma be_digits_2_value n : 0 <= n < 65536 ->
  exists hi lo, be_digits 2 n = [hi; lo] /\ Z_of_byte hi * 256 + Z_of_byte lo = n.
Proof.
  intros H. rewrite be_digits_2. do 2 eexists. split; [reflexivity |].
  rewrite !Z_of_byte_of_Z by (apply Z.mod_pos_bound; lia).
  rewrite (Z.mod_small (n / 256)).
  - pose proof (Z.div_mod n 256). lia.
  - split; [apply Z.div_pos; lia | apply Z.div_lt_upper_bound; lia].
Qed.

Lemma to_bytes_2 n :
  to_bytes n 2 = if (0 <=? n) && (n <? 65536) then Ok (be_digits 2 n) else Raise OverflowError.
Proof. reflexivity. Qed.

(** One run of [add_value] on a sample that converts. *)
Lemma add_value_run bytes key p v val :
  sample_at (samples_at (samples p) key) (idx p) = Ok v ->
  convert_value v = Ok val ->
  add_value bytes key p =
  if (0 <=? val) && (val <? 65536) then (Ok (bytes ++ be_digits 2 val), p)
  else (Ok (bytes ++ [x00; x00]), printed p (too_big_message val)).
Proof.
  intros Hs Hc.
  unfold add_value, bind, get, lift, try_except, ret. rewrite Hs, Hc, to_bytes_2.
  destruct ((0 <=? val) && (val <? 65536)); reflexivity.
Qed.

(** Integer bounds read off rational ones. *)
Lemma int_le_of_Q i x b : (inject_Z i - 1 < x)%Q -> (x <= inject_Z b)%Q -> i <= b.
Proof.
  intros A B.
  assert (H : (inject_Z (i - 1) < inject_Z b)%Q).
  { unfold Z.sub. rewrite inject_Z_plus, inject_Z_opp. unfold inject_Z in *. lra. }
  rewrite <- Zlt_Qlt in H. lia.
Qed.

Lemma int_ge_of_Q i x b : (x < inject_Z i + 1)%Q -> (inject_Z b <= x)%Q -> b <= i.
Proof.
  intros A B.
  assert (H : (inject_Z b < inject_Z (i + 1))%Q).
  { rewrite inject_Z_plus. unfold inject_Z in *. lra. }
  rewrite <- Zlt_Qlt in H. lia.
Qed.

(** Where the converted value of a finite sample falls. *)
Lemma convert_value_range q :
  in_double_range q ->
  exists val, convert_value (Finite q) = Ok val /\
    ((2 <= q \/ q <= - (65537 # 32768))%Q -> (0 <=? val) && (val <? 65536) = false) /\
    ((- (65537 # 32768) < q /\ q < 2)%Q -> 0 <= val < 65536).
Proof.
  intros R. rewrite (convert_value_finite q R). eexists. split; [reflexivity |].
  set (i := Qtrunc (scaled q)).
  destruct (Qlt_le_dec q 0) as [Hn | Hp].
  - destruct (Qtrunc_nonpos (scaled q)) as [S [A B]]; [unfold scaled, inject_Z; lra |].
    fold i in S, A, B. split.
    + intros [G | L]; [lra |].
      assert (i <= - 65537).
      { apply (int_le_of_Q i (scaled q)); [exact A | unfold scaled, inject_Z; lra]. }
      destruct (Z.leb_spec 0 i); [lia |].
      destruct (Z.leb_spec 0 (65536 + i)); [lia | reflexivity].
    + intros [L U].
      assert (- 65537 < i).
      { rewrite Zlt_Qlt. unfold scaled, inject_Z in *. lra. }
      zbool; lia.
  - destruct (Qtrunc_nonneg (scaled q)) as [S [A B]]; [unfold scaled, inject_Z; lra |].
    fold i in S, A, B. split.
    + intros [G | L]; [| lra].
      assert (65536 <= i).
      { apply (int_ge_of_Q i (scaled q)); [exact B | unfold scaled, inject_Z; lra]. }
      destruct (Z.leb_spec 0 i); [| lia].
      destruct (Z.ltb_spec i 65536); [lia |].
      destruct (Z.leb_spec 0 i); [reflexivity | lia].
    + intros [L U].
      assert (i < 65536).
      { rewrite Zlt_Qlt. unfold scaled, inject_Z in *. lra. }
      zbool; lia.
Qed.

(** C1 as worded fails at full scale: the sample 1.0 is encoded as the word
    0x8000, not clamped, and nothing is printed. *)
Lemma add_value_full_scale_not_clamped :
  let p := init_provider example_wave in
  sample_at (samples_at (samples p) AxisX) (idx p) = Ok (Finite 1) /\
  (1 <= Qabs 1)%Q /\
  add_value [] AxisX p = (Ok [x80; x00], p) /\
  fst (add_value [] AxisX p) <> Ok [x00; x00] /\
  stdout (snd (add_value [] AxisX p)) = [].
Proof.
  repeat split; try (vm_compute; reflexivity); vm_compute; discriminate.
Qed.

(** The read is not safe from every sample either: a sample whose product
    with 32768 is infinite makes [int] raise before the [try]. *)
Lemma add_value_raises_on_infinite_product :
  let p := init_provider {| wave_x := [Finite (inject_Z (10 ^ 308))]; wave_y := []; wave_z := [] |} in
  add_value [] AxisX p = (Raise OverflowError, p).
Proof. vm_compute. reflexivity. Qed.

(** C1, amended: the clamp is on what two bytes cannot hold.  A finite
    sample at or above 2.0, or at or below -65537/32768, is replaced by the
    word 0 with a line printed; a sample strictly between the two is
    emitted as the two bytes of its converted value and nothing is printed.
    Either way [add_value] returns and the block grows by two bytes. *)
Theorem add_value_clamps_what_two_bytes_cannot_hold bytes key p q :
  sample_at (samples_at (samples p) key) (idx p) = Ok (Finite q) ->
  in_double_range q ->
  exists val b p',
    convert_value (Finite q) = Ok val /\
    add_value bytes key p = (Ok (bytes ++ b), p') /\ List.length b = 2%nat /\
    ((2 <= q \/ q <= - (65537 # 32768))%Q ->
       b = [x00; x00] /\ p' = printed p (too_big_message val)) /\
    ((- (65537 # 32768) < q /\ q < 2)%Q ->
       0 <= val < 65536 /\ b = be_digits 2 val /\ p' = p).
Proof.
  intros Hs R.
  destruct (convert_value_range q R) as [val [Hc [Hout Hin]]].
  rewrite (add_value_run bytes key p _ val Hs Hc).
  destruct ((0 <=? val) && (val <? 65536)) eqn:E.
  - exists val, (be_digits 2 val), p.
    split; [exact Hc |]. split; [reflexivity |]. split; [reflexivity |]. split.
    + intros Hq. apply Hout in Hq. discriminate.
    + intros Hq. split; [apply Hin; exact Hq | split; reflexivity].
  - exists val, [x00; x00], (printed p (too_big_message val)).
    split; [exact Hc |]. split; [reflexivity |]. split; [reflexivity |]. split.
    + intros _. split; reflexivity.
    + intros Hq. apply Hin in Hq.
      apply andb_false_iff in E. destruct E as [E | E].
      * apply Z.leb_gt in E. lia.
      * apply Z.ltb_ge in E. lia.
Qed.

Lemma add_value_clamps_what_two_bytes_cannot_hold_witness :
  let p := init_provider example_wave in
  sample_at (samples_at (samples p) AxisZ) (idx p) = Ok (Finite 3) /\
  in_double_range 3 /\
  exists val b p',
    convert_value (Finite 3) = Ok val /\
    add_value [] AxisZ p = (Ok ([] ++ b), p') /\ List.length b = 2%nat /\
    ((2 <= 3 \/ 3 <= - (65537 # 32768))%Q ->
       b = [x00; x00] /\ p' = printed p (too_big_message val)) /\
    ((- (65537 # 32768) < 3 /\ 3 < 2)%Q ->
       0 <= val < 65536 /\ b = be_digits 2 val /\ p' = p).
Proof.
  split; [reflexivity |]. split; [vm_compute; discriminate |].
  apply (add_value_clamps_what_two_bytes_cannot_hold [] AxisZ (init_provider example_wave) 3);
    [reflexivity | vm_compute; discriminate].
Defined.

(** The line printed for the sample 3.0, whose word would be 98304. *)
Example add_value_prints_the_value :
  add_value [] AxisZ (init_provider example_wave)
  = (Ok [x00; x00],
     {| idx := 0; samples := example_wave;
        stdout := ["Value too big - 98304 - replacing with 0"%string]; slept := [] |}).
Proof. vm_compute. reflexivity. Qed.

End Encoding.


(** ** The synthetic provider and the recording transport *)

Module Transport.
Import I2cio.


Lemma sample_at_encodable w key i :
  encodable_at w key i ->
  exists v n, sample_at (samples_at w key) i = Ok v /\ convert_value v = Ok n /\ 0 <= n < 65536.
Proof.
  intros [v [n [Hn [Hc Hr]]]]. exists v, n.
  split; [| split; assumption].
  unfold sample_at. destruct (samples_at w key) as [| a l].
  - destruct (i mod List.length (@nil pyfloat))%nat; discriminate.
  - rewrite Hn. reflexivity.
Qed.

Lemma encoded_at_encodable w key i :
  encodable_at w key i ->
  exists v n, nth_error (samples_at w key) (i mod List.length (samples_at w key))%nat = Some v /\
              convert_value v = Ok n /\ 0 <= n < 65536 /\
              encoded_at w key i = be_digits 2 n.
Proof.
  intros H. destruct (sample_at_encodable w key i H) as [v' [n' [Hs [Hc' Hr']]]].
  destruct H as [v [n [Hn [Hc Hr]]]]. exists v, n.
  split; [exact Hn |]. split; [exact Hc |]. split; [exact Hr |].
  unfold encoded_at. rewrite Hs.
  assert (v' = v).
  { unfold sample_at in Hs. destruct (samples_at w key); [discriminate |].
    rewrite Hn in Hs. congruence. }
  subst v'. rewrite Hc. reflexivity.
Qed.

(** [add_value] on a sample in the encodable range appends its two bytes
    and leaves the provider as it was. *)
Lemma add_value_encodable bytes key p :
  encodable_at (samples p) key (idx p) ->
  add_value bytes key p = (Ok (bytes ++ encoded_at (samples p) key (idx p)), p).
Proof.
  intros H. destruct (sample_at_encodable _ _ _ H) as [v [n [Hs [Hc Hr]]]].
  rewrite (Encoding.add_value_run bytes key p v n Hs Hc).
  unfold encoded_at. rewrite Hs, Hc.
  destruct (Z.leb_spec 0 n); [| lia]. destruct (Z.ltb_spec n 65536); [| lia].
  reflexivity.
Qed.

Lemma advanced_0 p : advanced p 0 = p.
Proof. destruct p. unfold advanced. simpl. rewrite Nat.add_0_r. reflexivity. Qed.

Lemma advanced_S p n :
  advanced {| idx := S (idx p); samples := samples p; stdout := stdout p; slept := slept p |} n
  = advanced p (S n).
Proof. unfold advanced. simpl. rewrite Nat.add_succ_r. reflexivity. Qed.

(** The loop over sample sets that are all in the encodable range. *)
Lemma fifo_loop_encodable n : forall bytes p,
  (forall k key, (k < n)%nat -> encodable_at (samples p) key (idx p + k)) ->
  fifo_loop n bytes p =
  (Ok (bytes ++ flat_map (sample_set_at (samples p)) (seq (idx p) n)), advanced p n).
Proof.
  induction n as [| n IH]; intros bytes p H.
  - simpl. rewrite app_nil_r, advanced_0. reflexivity.
  - assert (H0 : forall key, encodable_at (samples p) key (idx p)).
    { intros key. specialize (H 0%nat key ltac:(lia)). rewrite Nat.add_0_r in H. exact H. }
    cbn [fifo_loop]. unfold bind at 1.
    rewrite (add_value_encodable bytes AxisX p (H0 AxisX)). unfold bind at 1.
    rewrite (add_value_encodable _ AxisY p (H0 AxisY)). unfold bind at 1.
    rewrite (add_value_encodable _ AxisZ p (H0 AxisZ)). unfold bind at 1.
    unfold incr_idx, modify.
    rewrite IH.
    + rewrite advanced_S. cbn [seq flat_map samples idx].
      unfold sample_set_at at 2. rewrite <- !app_assoc. reflexivity.
    + intros k key Hk. cbn [samples idx].
      specialize (H (S k) key ltac:(lia)). rewrite Nat.add_succ_r in H. exact H.
Qed.



(** What a read makes of its two sources. *)
Lemma read_with_cases {P V} (io : mockIO P V) (register : Z) (length : option Z) :
  read_with register length io =
  match data_provider io with
  | Some f =>
      match f register length (provider_self io) with
      | (Ok (Some v), p') => (Ok v, with_provider_self io p')
      | (Ok None, p') => get_nowait (with_provider_self io p')
      | (Raise e, p') => (Raise e, with_provider_self io p')
      end
  | None => get_nowait io
  end.
Proof.
  unfold read_with, bind, get. destruct (data_provider io) as [f |]; [| reflexivity].
  unfold call_provider. destruct (f register length (provider_self io)) as [[[v |] | e] p'];
    reflexivity.
Qed.

(** [time.sleep(0.002 * n)] by the size of [n]: the nanoseconds fit 64
    bits up to [n = 4611686018427] on either side of 0. *)
Lemma sleep_run n p :
  sleep n p
  = if (n <? - 4611686018427) || (4611686018427 <? n) then (Raise OverflowError, p)
    else if n <? 0 then (Raise ValueError, p)
    else (Ok tt, rested p n).
Proof.
  unfold sleep, raise, modify.
  assert (P : 2 ^ 63 = 9223372036854775808) by reflexivity.
  destruct (Z.ltb_spec (2000000 * n) (- 2 ^ 63));
    destruct (Z.ltb_spec (2 ^ 63) (2000000 * n));
    destruct (Z.ltb_spec n (- 4611686018427));
    destruct (Z.ltb_spec 4611686018427 n); try lia; simpl;
    try reflexivity; destruct (n <? 0); reflexivity.
Qed.

Lemma sleep_returns n p : 0 <= n <= 4611686018427 -> sleep n p = (Ok tt, rested p n).
Proof.
  intros H. rewrite sleep_run.
  destruct (Z.ltb_spec n (- 4611686018427)); [lia |].
  destruct (Z.ltb_spec 4611686018427 n); [lia |].
  destruct (Z.ltb_spec n 0); [lia | reflexivity].
Qed.


Lemma sleep_negative n p :
  n < 0 ->
  sleep n p = (Raise (if n <? - 4611686018427 then OverflowError else ValueError), p).
Proof.
  intros H. rewrite sleep_run.
  destruct (Z.ltb_spec n (- 4611686018427)); [reflexivity |].
  destruct (Z.ltb_spec 4611686018427 n); [lia |].
  destruct (Z.ltb_spec n 0); [reflexivity | lia].
Qed.

(** The last counts [time.sleep] takes and the first it does not. *)
Example sleep_limits :
  let p := init_provider small_wave in
  sleep 4611686018427 p = (Ok tt, rested p 4611686018427) /\
  sleep 4611686018428 p = (Raise OverflowError, p) /\
  sleep (- 1) p = (Raise ValueError, p) /\
  sleep (- 4611686018427) p = (Raise ValueError, p) /\
  sleep (- 4611686018428) p = (Raise OverflowError, p).
Proof. repeat split. Qed.

Section Registers.
Context `{regs : mpu6050}.
Hypothesis fifo_not_status : MPU6050_RA_FIFO_R_W <> MPU6050_RA_INT_STATUS.
Hypothesis fifo_not_count : MPU6050_RA_FIFO_R_W <> MPU6050_RA_FIFO_COUNTH.

Lemma provide_fifo (length : Z) :
  provide MPU6050_RA_FIFO_R_W (Some length) =
  (bytes <- fifo_loop (Z.to_nat (length / 6)) [] ;;
   sleep (length / 6) ;;
   ret (PByteArray bytes)).
Proof.
  unfold provide.
  apply Z.eqb_neq in fifo_not_status, fifo_not_count.
  rewrite fifo_not_status, fifo_not_count, Z.eqb_refl. reflexivity.
Qed.

(** A FIFO read through the transport is the provider's answer. *)
Lemma read_with_provide (io : mockIO MockIoDataProvider pyval) register length v p' :
  data_provider io = Some provide_fn ->
  provide register length (provider_self io) = (Ok v, p') ->
  read_with register length io = (Ok v, with_provider_self io p').
Proof.
  intros Hd Hp.
  unfold read_with, bind, get. rewrite Hd.
  unfold call_provider, provide_fn, bind. rewrite Hp. reflexivity.
Qed.

Lemma encoded_at_length w key i : encodable_at w key i -> List.length (encoded_at w key i) = 2%nat.
Proof.
  intros H. destruct (encoded_at_encodable w key i H) as [v [n [_ [_ [_ E]]]]].
  rewrite E. reflexivity.
Qed.

Lemma sample_set_at_length w i :
  (forall key, encodable_at w key i) -> List.length (sample_set_at w i) = 6%nat.
Proof.
  intros H. unfold sample_set_at. rewrite !length_app, !encoded_at_length by apply H.
  reflexivity.
Qed.

(** C6: a read of 18 bytes from the FIFO register, when the nine samples it
    draws are in the encodable range, returns the three sample sets under
    the cursor and its two successors, each the big-endian words of x, y, z
    taken at the cursor modulo the axis length, 18 bytes in all, and leaves
    the provider of the transport with its cursor three further, its
    waveform and its printed lines as they were, and one sleep more. *)
Theorem read_block_fifo_18 (io : mockIO MockIoDataProvider pyval) (i2c_address : Z) :
  data_provider io = Some provide_fn ->
  (forall k key, (k < 3)%nat ->
     encodable_at (samples (provider_self io)) key (idx (provider_self io) + k)) ->
  let after := snd (read_block i2c_address MPU6050_RA_FIFO_R_W 18 io) in
  exists block,
    fst (read_block i2c_address MPU6050_RA_FIFO_R_W 18 io) = Ok (PByteArray block) /\
    block = sample_set_at (samples (provider_self io)) (idx (provider_self io))
            ++ sample_set_at (samples (provider_self io)) (idx (provider_self io) + 1)
            ++ sample_set_at (samples (provider_self io)) (idx (provider_self io) + 2) /\
    List.length block = 18%nat /\
    idx (provider_self after) = (idx (provider_self io) + 3)%nat /\
    samples (provider_self after) = samples (provider_self io) /\
    stdout (provider_self after) = stdout (provider_self io) /\
    slept (provider_self after) = (slept (provider_self io) ++ [3])%list /\
    values_written after = values_written io /\
    vals_to_read after = vals_to_read io /\
    forall k key, (k < 3)%nat ->
      exists v n hi lo,
        nth_error (samples_at (samples (provider_self io)) key)
          ((idx (provider_self io) + k)
             mod List.length (samples_at (samples (provider_self io)) key))%nat = Some v /\
        convert_value v = Ok n /\
        encoded_at (samples (provider_self io)) key (idx (provider_self io) + k) = [hi; lo] /\
        Z_of_byte hi * 256 + Z_of_byte lo = n.
Proof.
  intros Hd H after.
  set (p := provider_self io) in *. set (w := samples p) in *.
  pose proof (fifo_loop_encodable 3 [] p H) as L.
  assert (R : read_block i2c_address MPU6050_RA_FIFO_R_W 18 io
              = (Ok (PByteArray (sample_set_at w (idx p) ++ sample_set_at w (idx p + 1)
                                 ++ sample_set_at w (idx p + 2))),
                 with_provider_self io (rested (advanced p 3) 3))).
  { unfold read_block. apply read_with_provide; [exact Hd |].
    rewrite provide_fifo. change (18 / 6) with 3. change (Z.to_nat 3) with 3%nat.
    fold p. unfold bind at 1. rewrite L.
    unfold bind at 1. rewrite sleep_returns by lia.
    cbn [seq flat_map app]. rewrite app_nil_r.
    rewrite Nat.add_1_r. replace (idx p + 2)%nat with (S (S (idx p))) by lia. reflexivity. }
  exists (sample_set_at w (idx p) ++ sample_set_at w (idx p + 1) ++ sample_set_at w (idx p + 2)).
  unfold after. rewrite R. cbn [fst snd].
  split; [reflexivity |].
  split; [reflexivity |]. split.
  - rewrite !length_app, !sample_set_at_length; [reflexivity | | |]; intros key.
    + apply (H 2%nat key). lia.
    + apply (H 1%nat key). lia.
    + specialize (H 0%nat key ltac:(lia)). rewrite Nat.add_0_r in H. exact H.
  - split; [reflexivity |]. split; [reflexivity |]. split; [reflexivity |].
    split; [reflexivity |]. split; [reflexivity |]. split; [reflexivity |].
    intros k key Hk.
    destruct (encoded_at_encodable w key (idx p + k) (H k key Hk)) as [v [n [Hn [Hc [Hr E]]]]].
    destruct (Encoding.be_digits_2_value n Hr) as [hi [lo [Hb Hv]]].
    exists v, n, hi, lo. rewrite E. repeat split; assumption.
Qed.


End Registers.

(** C6 on the example transport: the first 18 bytes of [small_wave]. *)
Lemma read_block_fifo_18_witness :
  let io := @example_io mpu6050_regs small_wave in
  let after := snd (@read_block MockIoDataProvider pyval 104 116 18 io) in
  data_provider io = Some (@provide_fn mpu6050_regs) /\
  (forall k key, (k < 3)%nat ->
     encodable_at (samples (provider_self io)) key (idx (provider_self io) + k)) /\
  (exists block,
     fst (@read_block MockIoDataProvider pyval 104 116 18 io) = Ok (PByteArray block) /\
     List.length block = 18%nat) /\
  idx (provider_self io) = 0%nat /\
  idx (provider_self after) = 3%nat /\
  slept (provider_self after) = [3].
Proof.
  assert (H : forall k key, (k < 3)%nat ->
     encodable_at small_wave key (0 + k)).
  { intros k key Hk.
    destruct k as [| [| [| k]]]; [| | | lia];
      destruct key; eexists; eexists;
      (split; [reflexivity | split; [vm_compute; reflexivity | lia]]). }
  split; [reflexivity |]. split; [exact H |].
  destruct (@read_block_fifo_18 mpu6050_regs ltac:(discriminate) ltac:(discriminate)
              (@example_io mpu6050_regs small_wave) 104 eq_refl H)
    as [block [E [_ [L [I [_ [_ [Sl _]]]]]]]].
  split; [exists block; split; [exact E | exact L] |].
  split; [reflexivity |]. split; [exact I | exact Sl].
Defined.

Example read_block_fifo_18_bytes :
  fst (@read_block MockIoDataProvider pyval 104 116 18 (@example_io mpu6050_regs small_wave))
  = Ok (PByteArray [x40; x00; xc0; x00; x00; x00;
                    x20; x00; xc0; x00; x00; x01;
                    x40; x00; xc0; x00; xff; xff]).
Proof. vm_compute. reflexivity. Qed.




(** The branches of the provider that do not look at [length]. *)
Example provide_fifo_count_ignores_length :
  fst (@provide mpu6050_regs 114 (Some 5) (init_provider small_wave)) = Ok (PIntList [0; 36]).
Proof. reflexivity. Qed.



End Transport.

(** ** The command protocol of [interface.py] *)

Module Protocol.
Import Interface.
Local Open Scope list_scope.
Local Open Scope string_scope.

(** *** The registry *)

Lemma lookup_set_state_eq name st ds d :
  lookup name ds = Some d ->
  lookup name (set_state name st ds)
  = Some {| state := st; self_test_results := self_test_results d;
            data_handler := data_handler d |}.
Proof.
  induction ds as [| [k d'] ds IH]; simpl; [discriminate |].
  destruct (String.eqb k name) eqn:E; simpl; rewrite E.
  - intros H. inversion H. reflexivity.
  - exact IH.
Qed.

Lemma lookup_set_state_ne name other st ds :
  other <> name -> lookup other (set_state name st ds) = lookup other ds.
Proof.
  intros Hne. induction ds as [| [k d'] ds IH]; simpl; [reflexivity |].
  destruct (String.eqb k name) eqn:E; simpl.
  - apply String.eqb_eq in E. subst k.
    destruct (String.eqb name other) eqn:F; [| reflexivity].
    apply String.eqb_eq in F. congruence.
  - rewrite IH. reflexivity.
Qed.

Lemma keys_set_state name st ds : map fst (set_state name st ds) = map fst ds.
Proof.
  induction ds as [| [k d'] ds IH]; simpl; [reflexivity |].
  destruct (String.eqb k name); simpl; [reflexivity | rewrite IH; reflexivity].
Qed.

(** *** Splitting a line *)

Lemma split_pipe_nonempty s : exists t ts, split_pipe s = t :: ts.
Proof.
  induction s as [| c s [t [ts IH]]]; simpl.
  - eauto.
  - destruct (Ascii.eqb c "|"); [eauto |]. rewrite IH. eauto.
Qed.

(** A token that holds no ['|'] ends at the first ['|'] after it. *)
Lemma split_pipe_token a r :
  has_pipe a = false -> split_pipe (a ++ "|" ++ r) = a :: split_pipe r.
Proof.
  change ("|" ++ r) with (String "|" r).
  induction a as [| c a IH]; simpl; intros H.
  - reflexivity.
  - apply orb_false_iff in H. destruct H as [Hc Ha].
    rewrite Hc, (IH Ha). reflexivity.
Qed.

Lemma split_pipe_last a : has_pipe a = false -> split_pipe a = [a].
Proof.
  induction a as [| c a IH]; simpl; intros H.
  - reflexivity.
  - apply orb_false_iff in H. destruct H as [Hc Ha].
    rewrite Hc, (IH Ha). reflexivity.
Qed.

(** *** Effects only accumulate *)

Lemma sent_app es es' : sent (es ++ es')%list = (sent es ++ sent es')%list.
Proof. unfold sent. apply flat_map_app. Qed.

Lemma grows_ret {A} (a : A) : grows (ret a).
Proof. intros p. exists []. simpl. rewrite app_nil_r. reflexivity. Qed.

Lemma grows_lift {A} (r : result A) : grows (lift r).
Proof. intros p. exists []. simpl. rewrite app_nil_r. reflexivity. Qed.

Lemma grows_get : grows (@get CommandProtocol).
Proof. intros p. exists []. simpl. rewrite app_nil_r. reflexivity. Qed.

Lemma grows_emit e : grows (emit e).
Proof. intros p. exists [e]. reflexivity. Qed.

Lemma grows_assign_state name st : grows (assign_state name st).
Proof. intros p. exists []. simpl. rewrite app_nil_r. reflexivity. Qed.

Lemma grows_bind {A B} (c : M CommandProtocol A) (k : A -> M CommandProtocol B) :
  grows c -> (forall a, grows (k a)) -> grows (bind c k).
Proof.
  intros Hc Hk p. unfold bind. destruct (Hc p) as [es E].
  destruct (c p) as [[a | e] p1]; simpl in E.
  - destruct (Hk a p1) as [es' E']. exists (es ++ es')%list. rewrite E', E, app_assoc. reflexivity.
  - exists es. exact E.
Qed.

Lemma grows_try_except {A} (c : M CommandProtocol A) catches h :
  grows c -> (forall e, grows (h e)) -> grows (try_except c catches h).
Proof.
  intros Hc Hh p. unfold try_except. destruct (Hc p) as [es E].
  destruct (c p) as [[a | e] p1]; simpl in E.
  - exists es. exact E.
  - destruct (catches e).
    + destruct (Hh e p1) as [es' E']. exists (es ++ es')%list. rewrite E', E, app_assoc. reflexivity.
    + exists es. exact E.
Qed.

Lemma grows_emit_all es : grows (emit_all es).
Proof.
  induction es as [| e es IH]; simpl.
  - apply grows_ret.
  - apply grows_bind; [apply grows_emit | intros _; exact IH].
Qed.

Create HintDb grows.
#[local] Hint Resolve grows_ret grows_lift grows_get grows_emit grows_assign_state
  grows_emit_all : grows.

Ltac grows :=
  repeat first
    [ apply grows_bind; [| intros ?]
    | apply grows_try_except; [| intros ?]
    | solve [auto with grows]
    | match goal with
      | |- grows (match ?x with _ => _ end) => destruct x
      | |- grows (if ?b then _ else _) => destruct b
      end ].

Section Codec.
Context `{codec : JsonCodec}.

Lemma grows_send_device_state j : grows (send_device_state j).
Proof. unfold send_device_state. grows. Qed.

Lemma grows_send_all_device_states : grows send_all_device_states.
Proof. unfold send_all_device_states. grows. Qed.

Lemma grows_handle_get tokens : grows (handle_get tokens).
Proof.
  unfold handle_get. grows;
    try first [apply grows_send_all_device_states | apply grows_send_device_state].
Qed.

Lemma grows_handle_set tokens : grows (handle_set tokens).
Proof. unfold handle_set. grows; try apply grows_send_device_state. Qed.

Lemma grows_handle_str tokens : grows (handle_str tokens).
Proof. unfold handle_str. grows. Qed.

Lemma grows_lineReceived line : grows (lineReceived line).
Proof.
  unfold lineReceived, dispatch, log_failure. grows;
    try first [apply grows_handle_get | apply grows_handle_set | apply grows_handle_str
              | apply grows_send_device_state].
Qed.

Lemma grows_receive_all lines : grows (receive_all lines).
Proof.
  induction lines as [| l lines IH]; simpl.
  - apply grows_ret.
  - apply grows_bind; [apply grows_lineReceived | intros _; exact IH].
Qed.

(** *** Sending a state *)

(** The line of a state is the decimal length of its JSON text, a ['|']
    and the text; when [json.dumps] raises, nothing is sent. *)
Lemma send_device_state_run j p :
  send_device_state j p
  = match json_dumps j with
    | Ok y => (Ok tt, after_send p (str_of_int (Z.of_nat (String.length y)) ++ "|" ++ y))
    | Raise e => (Raise e, p)
    end.
Proof.
  unfold send_device_state, bind, lift. destruct (json_dumps j); reflexivity.
Qed.

(** *** Receiving a line *)

Lemma lineReceived_decoded line text p :
  decode line = Ok text ->
  lineReceived line p
  = try_except (dispatch (split_pipe text)) (fun _ => true) (log_failure line) p.
Proof. intros H. unfold lineReceived, bind, lift. rewrite H. reflexivity. Qed.

Lemma dispatch_SET toks : dispatch ("SET" :: toks) = handle_set ("SET" :: toks).
Proof. reflexivity. Qed.

Lemma dispatch_GET toks : dispatch ("GET" :: toks) = handle_get ("GET" :: toks).
Proof. reflexivity. Qed.

(** A failure that is caught leaves a log entry and nothing else. *)
Lemma log_failure_run line e p :
  log_failure line e p = (Ok tt, after_event p (log_entry line e)) /\
  sent [log_entry line e] = [] /\
  log_entry line e = match e with
                     | KeyError => LogInfo line
                     | _ => LogException line e
                     end.
Proof. destruct e; repeat split. Qed.

(** What [handle_set] does, by whether its argument names a device: if it
    does, the state is replaced first and echoed after, so that a failing
    echo finds it replaced. *)
Lemma handle_set_cases tokens p :
  (exists m name d,
      names_device tokens p m name d /\
      handle_set tokens p
      = match json_dumps (JObj m) with
        | Ok y => (Ok tt, after_set p name (JObj m)
                            (SendLine (str_of_int (Z.of_nat (String.length y)) ++ "|" ++ y)))
        | Raise e => (Raise e, {| devices := set_state name (JObj m) (devices p);
                                  handlers := handlers p; trace := trace p |})
        end)
  \/ ((forall m name d, ~ names_device tokens p m name d) /\ snd (handle_set tokens p) = p).
Proof.
  unfold handle_set, names_device, token, bind, lift, get, ret.
  destruct (nth_error tokens 1) as [arg |] eqn:E1;
    [| right; split; [intros m name d (a & H1 & _); discriminate | reflexivity]].
  destruct (json_loads arg) as [j | e] eqn:E2;
    [| right; split; [intros m name d (a & H1 & H2 & _); congruence | reflexivity]].
  destruct j as [| b | t | s | l | m];
    try (right; split;
         [intros m' name d (a & H1 & H2 & _); congruence
         | simpl; repeat match goal with |- context [if ?c then _ else _] => destruct c end;
           reflexivity]).
  simpl. destruct (dict_get "name" m) as [v |] eqn:E3;
    [| right; split; [intros m' name d (a & H1 & H2 & H3 & _); congruence | reflexivity]].
  simpl.
  destruct v as [| b | t | s | l | m'];
    try (right; split;
         [intros m'' name d (a & H1 & H2 & H3 & _); congruence | reflexivity]).
  simpl. destruct (lookup s (devices p)) as [d |] eqn:E4.
  - left. exists m, s, d. split; [exists arg; repeat split; assumption |].
    unfold assign_state, modify. rewrite send_device_state_run.
    destruct (json_dumps (JObj m)); reflexivity.
  - right. split; [| reflexivity].
    intros m'' name d (a & H1 & H2 & H3 & H4).
    assert (a = arg) by congruence. subst a.
    assert (m'' = m) by congruence. subst m''.
    assert (name = s) by congruence. subst name. congruence.
Qed.

Lemma names_device_unique tokens p m name d m' name' d' :
  names_device tokens p m name d -> names_device tokens p m' name' d' ->
  m' = m /\ name' = name /\ d' = d.
Proof.
  intros (a & H1 & H2 & H3 & H4) (a' & H1' & H2' & H3' & H4').
  assert (a' = a) by congruence. subst a'.
  assert (m' = m) by congruence. subst m'.
  assert (name' = name) by congruence. subst name'.
  repeat split; congruence.
Qed.

(** A SET line that names a device: the state is replaced, and the one
    effect is the echo, or the log entry of what [json.dumps] raised. *)
Lemma lineReceived_set line text toks p m name d :
  decode line = Ok text ->
  split_pipe text = "SET" :: toks ->
  names_device ("SET" :: toks) p m name d ->
  lineReceived line p
  = (Ok tt,
     after_set p name (JObj m)
       match json_dumps (JObj m) with
       | Ok y => SendLine (str_of_int (Z.of_nat (String.length y)) ++ "|" ++ y)
       | Raise e => log_entry line e
       end).
Proof.
  intros Hd Hs Hn.
  rewrite (lineReceived_decoded line text p Hd), Hs, dispatch_SET.
  unfold try_except.
  destruct (handle_set_cases ("SET" :: toks) p) as [(m' & name' & d' & Hn' & E) | [Hno _]].
  - destruct (names_device_unique _ _ _ _ _ _ _ _ Hn Hn') as (-> & -> & ->).
    rewrite E. destruct (json_dumps (JObj m)) as [y | e]; [reflexivity |].
    destruct (log_failure_run line e
                {| devices := set_state name (JObj m) (devices p);
                   handlers := handlers p; trace := trace p |}) as [-> _].
    reflexivity.
  - exfalso. exact (Hno m name d Hn).
Qed.

(** C4, amended: a SET line whose argument is an object naming a registered
    device puts that object in place of the device's state, whole, and
    then has one effect: the frame with the new state, its length in
    decimal before a ['|'], when [json.dumps] writes the state, and the log
    entry of the exception when it raises, with nothing sent.  Any other
    SET line leaves every device as it was and sends nothing. *)
Theorem handle_set_replaces_or_ignores
    (line : list byte) (text : string) (toks : list string) (p : CommandProtocol) :
  decode line = Ok text ->
  split_pipe text = "SET" :: toks ->
  (forall m name d,
      names_device ("SET" :: toks) p m name d ->
      let after := snd (lineReceived line p) in
      fst (lineReceived line p) = Ok tt /\
      lookup name (devices after)
      = Some {| state := JObj m; self_test_results := self_test_results d;
                data_handler := data_handler d |} /\
      (forall other, other <> name -> lookup other (devices after) = lookup other (devices p)) /\
      map fst (devices after) = map fst (devices p) /\
      handlers after = handlers p /\
      (forall y, json_dumps (JObj m) = Ok y ->
         trace after
         = (trace p ++ [SendLine (str_of_int (Z.of_nat (String.length y)) ++ "|" ++ y)])%list) /\
      (forall e, json_dumps (JObj m) = Raise e ->
         trace after
         = (trace p ++ [match e with
                        | KeyError => LogInfo line
                        | _ => LogException line e
                        end])%list)) /\
  ((forall m name d, ~ names_device ("SET" :: toks) p m name d) ->
      devices (snd (lineReceived line p)) = devices p /\
      sent (trace (snd (lineReceived line p))) = sent (trace p)).
Proof.
  intros Hd Hs. split.
  - intros m name d Hn after. unfold after.
    rewrite (lineReceived_set line text toks p m name d Hd Hs Hn). cbn [fst snd].
    destruct Hn as (a & H1 & H2 & H3 & H4).
    split; [reflexivity |].
    split; [apply lookup_set_state_eq; exact H4 |].
    split; [intros other Ho; apply lookup_set_state_ne; exact Ho |].
    split; [apply keys_set_state |].
    split; [reflexivity |].
    split.
    + intros y Hy. rewrite Hy. reflexivity.
    + intros e He. rewrite He. destruct e; reflexivity.
  - intros Hno.
    rewrite (lineReceived_decoded line text p Hd), Hs, dispatch_SET.
    unfold try_except.
    destruct (handle_set_cases ("SET" :: toks) p) as [(m & name & d & Hn & _) | [_ E]].
    + exfalso. exact (Hno m name d Hn).
    + destruct (handle_set ("SET" :: toks) p) as [[[] | e] p']; simpl in E; subst p'.
      * split; reflexivity.
      * destruct (log_failure_run line e p) as [-> [Hsent _]]. simpl.
        split; [reflexivity |]. rewrite sent_app, Hsent, app_nil_r. reflexivity.
Qed.

(** Where C8 does hold: a line that decodes and whose first token is no
    command name is logged and otherwise ignored. *)
Lemma unknown_command_logged_and_ignored line text t0 toks p :
  decode line = Ok text ->
  split_pipe text = t0 :: toks ->
  t0 <> "GET" -> t0 <> "SET" -> t0 <> "STR" ->
  lineReceived line p
  = (Ok tt, {| devices := devices p; handlers := handlers p;
               trace := (trace p ++ [LogInfo line])%list |}).
Proof.
  intros Hd Hs Hg Hse Hst.
  rewrite (lineReceived_decoded line text p Hd), Hs.
  unfold try_except, dispatch, bind, lift, token, Command_of_name. simpl.
  apply String.eqb_neq in Hg, Hse, Hst. rewrite Hg, Hse, Hst. reflexivity.
Qed.

(** A line that does not decode raises out of [lineReceived] and leaves
    the protocol as it was: the decoding stands before the [try]. *)
Lemma undecodable_line_raises line e p :
  decode line = Raise e -> lineReceived line p = (Raise e, p).
Proof. intros H. unfold lineReceived, bind, lift. rewrite H. reflexivity. Qed.

(** C8, the line the source does not survive: a line that is not UTF-8
    raises [UnicodeDecodeError] out of [lineReceived], past the [try],
    with nothing logged. *)
Theorem lineReceived_undecodable_raises (p : CommandProtocol) :
  lineReceived [xff] p = (Raise UnicodeDecodeError, p) /\
  lineReceived [x46; x4f; x4f; x7c; xff] p = (Raise UnicodeDecodeError, p).
Proof. split; reflexivity. Qed.

(** *** A connection from its start *)

Lemma emit_all_run es p :
  emit_all es p
  = (Ok tt, {| devices := devices p; handlers := handlers p; trace := (trace p ++ es)%list |}).
Proof.
  revert p. induction es as [| e es IH]; intros p; simpl.
  - unfold ret. rewrite app_nil_r. destruct p. reflexivity.
  - unfold bind, emit, modify. rewrite IH. simpl. rewrite <- app_assoc. reflexivity.
Qed.

Lemma sent_accepts (hs : list nat) b : sent (map (fun h => Accept h b) hs) = [].
Proof. induction hs as [| h hs IH]; simpl; [reflexivity | exact IH]. Qed.

Lemma sent_init_protocol ds : sent (trace (init_protocol ds)) = [].
Proof. induction ds as [| kd ds IH]; simpl; [reflexivity | exact IH]. Qed.

(** [connectionMade] sends the states and then tells the handler chains;
    when the states cannot be written it raises with nothing done. *)
Lemma connectionMade_run p :
  connectionMade p
  = match json_dumps (JArr (map (fun kd => state (snd kd)) (devices p))) with
    | Ok y =>
        (Ok tt,
         {| devices := devices p; handlers := handlers p;
            trace := (trace p
                      ++ SendLine (str_of_int (Z.of_nat (String.length y)) ++ "|" ++ y)
                      :: map (fun h => Accept h true) (handlers p))%list |})
    | Raise e => (Raise e, p)
    end.
Proof.
  unfold connectionMade, send_all_device_states, bind at 1 2, get.
  rewrite send_device_state_run.
  destruct (json_dumps (JArr (map (fun kd => state (snd kd)) (devices p)))) as [y | e];
    [| reflexivity].
  unfold bind, get. rewrite emit_all_run. simpl. rewrite <- app_assoc. reflexivity.
Qed.

(** C9, amended: on a fresh connection, when [json.dumps] writes the array
    of all device states, the frame with it (the decimal length of the
    text, a ['|'], the text) is the first thing sent; the handler chains
    are told of the connection after it, and every line is handled after
    that.  When [json.dumps] raises, [connectionMade] raises with it:
    nothing is sent and no handler chain is told. *)
Theorem connectionMade_sends_states_first (ds : registry) (lines : list (list byte)) :
  let p0 := init_protocol ds in
  let states := JArr (map (fun kd => state (snd kd)) ds) in
  sent (trace p0) = [] /\
  (forall y, json_dumps states = Ok y ->
     let first := str_of_int (Z.of_nat (String.length y)) ++ "|" ++ y in
     connectionMade p0
     = (Ok tt, {| devices := ds; handlers := handlers p0;
                  trace := (trace p0 ++ SendLine first
                                        :: map (fun h => Accept h true) (handlers p0))%list |}) /\
     (exists rest,
         trace (snd (serve lines p0))
         = (trace p0 ++ SendLine first
                        :: map (fun h => Accept h true) (handlers p0) ++ rest)%list) /\
     hd_error (sent (trace (snd (serve lines p0)))) = Some first) /\
  (forall e, json_dumps states = Raise e -> connectionMade p0 = (Raise e, p0)).
Proof.
  intros p0 states.
  split; [apply sent_init_protocol |]. split.
  - intros y Hy first.
    assert (C : connectionMade p0
                = (Ok tt, {| devices := ds; handlers := handlers p0;
                             trace := (trace p0 ++ SendLine first
                                         :: map (fun h => Accept h true) (handlers p0))%list |})).
    { rewrite connectionMade_run. cbn [devices p0 init_protocol]. fold states.
      rewrite Hy. reflexivity. }
    assert (R : exists rest,
        trace (snd (serve lines p0))
        = (trace p0 ++ SendLine first
                       :: map (fun h => Accept h true) (handlers p0) ++ rest)%list).
    { unfold serve, bind. rewrite C.
      match goal with |- context [receive_all lines ?p1] =>
        destruct (grows_receive_all lines p1) as [rest E] end.
      exists rest. rewrite E. simpl. rewrite <- app_assoc. reflexivity. }
    split; [exact C |]. split; [exact R |].
    destruct R as [rest E]. rewrite E, sent_app. unfold p0. rewrite sent_init_protocol.
    reflexivity.
  - intros e He. rewrite connectionMade_run. cbn [devices p0 init_protocol]. fold states.
    rewrite He. reflexivity.
Qed.

(** *** Tokens past the second *)

Lemma handle_set_second_token cmd arg rest :
  handle_set (cmd :: arg :: rest) = handle_set [cmd; arg].
Proof. reflexivity. Qed.

Lemma handle_get_second_token cmd arg rest :
  handle_get (cmd :: arg :: rest) = handle_get [cmd; arg].
Proof. reflexivity. Qed.

(** [handle_set] asks the parser about its second token and nothing else. *)
Lemma handle_set_parses_second_token (codec' : JsonCodec) cmd arg p :
  @json_dumps codec' = @json_dumps codec ->
  @json_loads codec' arg = @json_loads codec arg ->
  @handle_set codec' [cmd; arg] p = @handle_set codec [cmd; arg] p.
Proof.
  intros Hdumps Hloads.
  unfold handle_set, send_device_state, token, bind, lift. simpl.
  rewrite Hloads, Hdumps. reflexivity.
Qed.

(** C10: the line is split before anything is parsed, so what SET hands to
    the JSON parser is the text between the first and the second ['|'];
    a payload with a ['|'] in it is cut there, whatever the parser would
    make of the whole, and what follows the second ['|'] changes nothing
    for SET or for GET. *)
Theorem argument_is_second_token
    (line : list byte) (cmd arg rest : string) (p : CommandProtocol) :
  has_pipe arg = false ->
  decode line = Ok (cmd ++ "|" ++ arg ++ "|" ++ rest) ->
  (cmd = "SET" ->
     split_pipe (cmd ++ "|" ++ arg ++ "|" ++ rest) = "SET" :: arg :: split_pipe rest /\
     lineReceived line p
     = try_except (handle_set ["SET"; arg]) (fun _ => true) (log_failure line) p /\
     forall codec' : JsonCodec,
       @json_dumps codec' = @json_dumps codec ->
       @json_loads codec' arg = @json_loads codec arg ->
       @lineReceived codec' line p = @lineReceived codec line p) /\
  (cmd = "GET" ->
     lineReceived line p
     = try_except (handle_get ["GET"; arg]) (fun _ => true) (log_failure line) p).
Proof.
  intros Ha Hd.
  assert (S : forall c, has_pipe c = false ->
            split_pipe (c ++ "|" ++ arg ++ "|" ++ rest) = c :: arg :: split_pipe rest).
  { intros c Hc. rewrite (split_pipe_token c _ Hc), (split_pipe_token arg _ Ha). reflexivity. }
  assert (R : forall c : JsonCodec,
            @lineReceived c line p
            = try_except (@handle_set c ["SET"; arg]) (fun _ => true) (log_failure line) p
            \/ cmd <> "SET").
  { intros c. destruct (String.eqb_spec cmd "SET") as [-> | Hne]; [left | right; exact Hne].
    unfold lineReceived, bind, lift. rewrite Hd, (S "SET" eq_refl). reflexivity. }
  split; intros ->.
  - split; [apply S; reflexivity |].
    destruct (R codec) as [E | Hne]; [| congruence].
    split; [exact E |].
    intros codec' Hdumps Hloads.
    destruct (R codec') as [E' | Hne]; [| congruence].
    rewrite E, E'. unfold try_except.
    rewrite (handle_set_parses_second_token codec' "SET" arg p Hdumps Hloads). reflexivity.
  - rewrite (lineReceived_decoded line _ p Hd), (S "GET" eq_refl), dispatch_GET.
    rewrite handle_get_second_token. reflexivity.
Qed.

End Codec.

(** *** The scenarios of the specification, on the example registry *)

Example get_imu0 :
  sent (trace (snd (@lineReceived example_codec (bytes_of "GET|imu0")
                      (init_protocol example_registry))))
  = [frame_imu0 "100"].
Proof. reflexivity. Qed.

Example set_then_get_imu0 :
  sent (trace (snd (@receive_all example_codec
                      [bytes_of ("SET|" ++ set_rate_200); bytes_of "GET|imu0"]
                      (init_protocol example_registry))))
  = [frame_imu0 "200"; frame_imu0 "200"].
Proof. reflexivity. Qed.

Example first_frame_on_connect :
  hd_error (sent (trace (snd (@serve example_codec [bytes_of "GET|imu0"]
                                (init_protocol example_registry)))))
  = Some ("31|[{" ++ quoted "name" ++ ": " ++ quoted "imu0" ++ ", "
                  ++ quoted "rate" ++ ": 100}]").
Proof. reflexivity. Qed.

(** The length before the ['|'] is that of the text after it: frames of
    2, 29 and 31 characters. *)
Example frame_lengths :
  frame "{}" = "2|{}" /\
  frame (write_json (imu0_rate "200")) = frame_imu0 "200" /\
  frame (write_json nested_state)
  = "31|{" ++ quoted "name" ++ ": " ++ quoted "imu0" ++ ", " ++ quoted "cal" ++ ": [[[]]]}".
Proof. repeat split. Qed.

(** C4 as worded fails: a SET for [imu0] whose state [json.loads] reads and
    [json.dumps] cannot write back replaces the state and sends no frame;
    the failure is logged. *)
Lemma handle_set_state_replaced_without_echo :
  let p := init_protocol example_registry in
  let line := bytes_of ("SET|" ++ set_nested) in
  let after := snd (@lineReceived (limited_codec 3) line p) in
  @names_device (limited_codec 3) (split_pipe ("SET|" ++ set_nested)) p
     [("name", JStr "imu0"); ("cal", JArr [JArr [JArr []]])] "imu0"
     {| state := imu0_rate "100"; self_test_results := JObj []; data_handler := 0 |} /\
  @json_dumps (limited_codec 3) nested_state = Raise RecursionError /\
  lookup "imu0" (devices after)
  = Some {| state := nested_state; self_test_results := JObj []; data_handler := 0 |} /\
  sent (trace after) = [] /\
  trace after = (trace p ++ [LogException line RecursionError])%list.
Proof.
  intros p line after. split.
  - exists set_nested. repeat split; reflexivity.
  - repeat split; reflexivity.
Qed.

(** C4, amended, on the example registry: a SET for [imu0] replaces its
    state and is echoed in a frame of 29 characters; one whose state
    cannot be written back replaces it and is logged; a SET for an unknown
    device changes and sends nothing. *)
Lemma handle_set_replaces_or_ignores_witness :
  let p := init_protocol example_registry in
  let known := bytes_of ("SET|" ++ set_rate_200) in
  let nested := bytes_of ("SET|" ++ set_nested) in
  let unknown := bytes_of ("SET|" ++ set_unknown) in
  decode known = Ok ("SET|" ++ set_rate_200) /\
  split_pipe ("SET|" ++ set_rate_200) = ["SET"; set_rate_200] /\
  @names_device example_codec ["SET"; set_rate_200] p
     [("name", JStr "imu0"); ("rate", JNum "200")] "imu0"
     {| state := imu0_rate "100"; self_test_results := JObj []; data_handler := 0 |} /\
  lookup "imu0" (devices (snd (@lineReceived example_codec known p)))
  = Some {| state := imu0_rate "200"; self_test_results := JObj []; data_handler := 0 |} /\
  trace (snd (@lineReceived example_codec known p))
  = [Accept 0 false;
     SendLine ("29|{" ++ quoted "name" ++ ": " ++ quoted "imu0" ++ ", "
                      ++ quoted "rate" ++ ": 200}")] /\
  trace (snd (@lineReceived example_codec nested p))
  = [Accept 0 false;
     SendLine ("31|{" ++ quoted "name" ++ ": " ++ quoted "imu0" ++ ", "
                      ++ quoted "cal" ++ ": [[[]]]}")] /\
  trace (snd (@lineReceived (limited_codec 3) nested p))
  = [Accept 0 false; LogException nested RecursionError] /\
  lookup "imu0" (devices (snd (@lineReceived (limited_codec 3) nested p)))
  = Some {| state := nested_state; self_test_results := JObj []; data_handler := 0 |} /\
  devices (snd (@lineReceived example_codec unknown p)) = devices p /\
  sent (trace (snd (@lineReceived example_codec unknown p))) = sent (trace p).
Proof.
  intros p known nested unknown.
  set (d := {| state := imu0_rate "100"; self_test_results := JObj []; data_handler := 0 |}).
  assert (N : @names_device example_codec ["SET"; set_rate_200] p
                [("name", JStr "imu0"); ("rate", JNum "200")] "imu0" d).
  { exists set_rate_200. repeat split; reflexivity. }
  assert (N1 : @names_device example_codec ["SET"; set_nested] p
                 [("name", JStr "imu0"); ("cal", JArr [JArr [JArr []]])] "imu0" d).
  { exists set_nested. repeat split; reflexivity. }
  assert (N2 : @names_device (limited_codec 3) ["SET"; set_nested] p
                 [("name", JStr "imu0"); ("cal", JArr [JArr [JArr []]])] "imu0" d).
  { exists set_nested. repeat split; reflexivity. }
  destruct (@handle_set_replaces_or_ignores example_codec known
              ("SET|" ++ set_rate_200) [set_rate_200] p eq_refl eq_refl) as [Hknown _].
  destruct (Hknown _ _ _ N) as [_ [L [_ [_ [_ [T _]]]]]].
  destruct (@handle_set_replaces_or_ignores example_codec nested
              ("SET|" ++ set_nested) [set_nested] p eq_refl eq_refl) as [Hnested _].
  destruct (Hnested _ _ _ N1) as [_ [_ [_ [_ [_ [T1 _]]]]]].
  destruct (@handle_set_replaces_or_ignores (limited_codec 3) nested
              ("SET|" ++ set_nested) [set_nested] p eq_refl eq_refl) as [Hlimited _].
  destruct (Hlimited _ _ _ N2) as [_ [L2 [_ [_ [_ [_ T2]]]]]].
  destruct (@handle_set_replaces_or_ignores example_codec unknown
              ("SET|" ++ set_unknown) [set_unknown] p eq_refl eq_refl) as [_ Hunknown].
  assert (U : forall m name d, ~ @names_device example_codec ["SET"; set_unknown] p m name d).
  { intros m name d' (a & H1 & H2 & H3 & H4).
    inversion H1; subst a. inversion H2; subst m. inversion H3; subst name. discriminate. }
  destruct (Hunknown U) as [Hdev Hsent].
  split; [reflexivity |]. split; [reflexivity |]. split; [exact N |].
  split; [exact L |].
  split; [rewrite (T _ eq_refl); reflexivity |].
  split; [rewrite (T1 _ eq_refl); reflexivity |].
  split; [rewrite (T2 _ eq_refl); reflexivity |].
  split; [exact L2 |].
  split; [exact Hdev | exact Hsent].
Defined.

(** C9 as worded fails: with a state in the registry that [json.dumps]
    cannot write, [connectionMade] raises; no frame is sent and no handler
    chain is told of the connection. *)
Lemma connectionMade_raises_on_unwritable_state :
  let ds := [("imu0", {| state := nested_state; self_test_results := JObj [];
                         data_handler := 0 |})] in
  let p0 := init_protocol ds in
  fst (@connectionMade (limited_codec 3) p0) = Raise RecursionError /\
  sent (trace (snd (@connectionMade (limited_codec 3) p0))) = [] /\
  trace (snd (@connectionMade (limited_codec 3) p0)) = [Accept 0 false].
Proof. repeat split. Qed.

(** C9, amended, on two registries: the one device of the first is sent in
    a frame of 31 characters, the two of the second in one of 49, each
    before the handler chains are told and before the GET is answered; a
    state that cannot be written makes [connectionMade] raise. *)
Lemma connectionMade_sends_states_first_witness :
  trace (snd (@serve example_codec [bytes_of "GET|imu0"] (init_protocol example_registry)))
  = [Accept 0 false;
     SendLine ("31|[{" ++ quoted "name" ++ ": " ++ quoted "imu0" ++ ", "
                       ++ quoted "rate" ++ ": 100}]");
     Accept 0 true;
     SendLine ("29|{" ++ quoted "name" ++ ": " ++ quoted "imu0" ++ ", "
                      ++ quoted "rate" ++ ": 100}")] /\
  hd_error (sent (trace (snd (@serve example_codec [] (init_protocol two_devices)))))
  = Some ("49|[{" ++ quoted "name" ++ ": " ++ quoted "imu0" ++ ", " ++ quoted "rate"
                  ++ ": 100}, {" ++ quoted "name" ++ ": " ++ quoted "imu1" ++ "}]") /\
  @connectionMade (limited_codec 3)
    (init_protocol [("imu0", {| state := nested_state; self_test_results := JObj [];
                                data_handler := 0 |})])
  = (Raise RecursionError,
     init_protocol [("imu0", {| state := nested_state; self_test_results := JObj [];
                                data_handler := 0 |})]).
Proof.
  destruct (@connectionMade_sends_states_first example_codec example_registry
              [bytes_of "GET|imu0"]) as [_ [H1 _]].
  destruct (H1 _ eq_refl) as [_ [[rest E] _]].
  destruct (@connectionMade_sends_states_first example_codec two_devices [])
    as [_ [H2 _]].
  destruct (H2 _ eq_refl) as [_ [_ F]].
  destruct (@connectionMade_sends_states_first (limited_codec 3)
              [("imu0", {| state := nested_state; self_test_results := JObj [];
                           data_handler := 0 |})] []) as [_ [_ H3]].
  split; [| split; [exact F | exact (H3 _ eq_refl)]].
  rewrite E.
  assert (R : rest = [SendLine ("29|{" ++ quoted "name" ++ ": " ++ quoted "imu0" ++ ", "
                                       ++ quoted "rate" ++ ": 100}")]).
  { apply (app_inv_head
             (trace (init_protocol example_registry)
              ++ [SendLine ("31|[{" ++ quoted "name" ++ ": " ++ quoted "imu0" ++ ", "
                                    ++ quoted "rate" ++ ": 100}]"); Accept 0 true])%list).
    transitivity (trace (snd (@serve example_codec [bytes_of "GET|imu0"]
                                (init_protocol example_registry)))).
    - rewrite E. reflexivity.
    - reflexivity. }
  rewrite R. reflexivity.
Defined.

(** A line whose first token is no command, on the example registry. *)
Lemma unknown_command_logged_and_ignored_witness :
  let p := init_protocol example_registry in
  let line := bytes_of "FOO|imu0" in
  decode line = Ok "FOO|imu0" /\
  split_pipe "FOO|imu0" = ["FOO"; "imu0"] /\
  @lineReceived example_codec line p
  = (Ok tt, {| devices := devices p; handlers := handlers p;
               trace := (trace p ++ [LogInfo line])%list |}).
Proof.
  intros p line.
  split; [reflexivity |]. split; [reflexivity |].
  apply (@unknown_command_logged_and_ignored example_codec line "FOO|imu0" "FOO" ["imu0"] p);
    first [reflexivity | discriminate].
Defined.

(** C10 on the example registry: text after a second ['|'] does not reach
    the parser, so the SET goes through as if it were not there. *)
Lemma argument_is_second_token_witness :
  let p := init_protocol example_registry in
  let line := bytes_of ("SET|" ++ set_rate_200 ++ "|" ++ "trailing") in
  has_pipe set_rate_200 = false /\
  decode line = Ok ("SET" ++ "|" ++ set_rate_200 ++ "|" ++ "trailing") /\
  @lineReceived example_codec line p
  = try_except (@handle_set example_codec ["SET"; set_rate_200]) (fun _ => true)
      (log_failure line) p /\
  @lineReceived example_codec line p
  = (Ok tt, after_set p "imu0" (imu0_rate "200") (SendLine (frame_imu0 "200"))).
Proof.
  intros p line.
  destruct (@argument_is_second_token example_codec line "SET" set_rate_200 "trailing" p
              eq_refl eq_refl) as [Hset _].
  destruct (Hset eq_refl) as [_ [E _]].
  split; [reflexivity |]. split; [reflexivity |]. split; [exact E |].
  rewrite E. reflexivity.
Defined.

End Protocol.

(** * Further properties *)

(** ** The encoding as a map from samples to signed words *)

Module Samples.
Import I2cio.
Import Encoding.

Lemma abs_lt_1_in_double_range q : (Qabs q < 1)%Q -> in_double_range q.
Proof.
  intros H. apply small_in_double_range. apply Qlt_le_weak.
  apply Qlt_trans with 1%Q; [exact H | reflexivity].
Qed.

(** Below full scale the signed word is the truncated product. *)
Lemma signed_word_small q :
  (Qabs q < 1)%Q ->
  signed_word (Finite q) = Ok (Qtrunc (scaled q)) /\ - 32768 < Qtrunc (scaled q) < 32768.
Proof.
  intros H. unfold signed_word.
  rewrite (convert_value_finite q (abs_lt_1_in_double_range q H)).
  pose proof (Qtrunc_within (scaled q) 32768 (scaled_bound q 1 H)) as I.
  rewrite to_signed16_wrap by lia. split; [reflexivity | exact I].
Qed.

Lemma Qtrunc_monotone x y : (x <= y)%Q -> Qtrunc x <= Qtrunc y.
Proof.
  intros H.
  destruct (Qlt_le_dec x 0) as [Hx | Hx].
  - destruct (Qtrunc_nonpos x) as [Sx [Ax Bx]]; [lra |].
    destruct (Qlt_le_dec y 0) as [Hy | Hy].
    + destruct (Qtrunc_nonpos y) as [Sy [Ay By]]; [lra |].
      apply (int_le_of_Q _ x); [exact Ax | lra].
    + destruct (Qtrunc_nonneg y Hy) as [Sy _]. lia.
  - destruct (Qtrunc_nonneg x Hx) as [Sx [Ax Bx]].
    destruct (Qtrunc_nonneg y) as [Sy [Ay By]]; [lra |].
    apply (int_ge_of_Q _ y); [exact By | lra].
Qed.

Lemma Qtrunc_opp x : Qtrunc (- x) = - Qtrunc x.
Proof.
  destruct x as [n d]. unfold Qtrunc. simpl. apply Z.quot_opp_l. discriminate.
Qed.

Lemma scaled_opp q : scaled (- q) = (- scaled q)%Q.
Proof.
  destruct q as [n d]. unfold scaled, Qmult, Qopp. simpl.
  rewrite Z.mul_opp_l. reflexivity.
Qed.

(** The encoding keeps the order of samples: a larger sample never gets a
    smaller signed word. *)
Theorem signed_word_monotone q1 q2 :
  (Qabs q1 < 1)%Q -> (Qabs q2 < 1)%Q -> (q1 <= q2)%Q ->
  exists s1 s2,
    signed_word (Finite q1) = Ok s1 /\ signed_word (Finite q2) = Ok s2 /\ s1 <= s2.
Proof.
  intros H1 H2 H.
  destruct (signed_word_small q1 H1) as [E1 _], (signed_word_small q2 H2) as [E2 _].
  exists (Qtrunc (scaled q1)), (Qtrunc (scaled q2)).
  split; [exact E1 |]. split; [exact E2 |].
  apply Qtrunc_monotone. unfold scaled, inject_Z. lra.
Qed.

Lemma signed_word_monotone_witness :
  (Qabs (- (3 # 10)) < 1)%Q /\ (Qabs (1 # 7) < 1)%Q /\ (- (3 # 10) <= 1 # 7)%Q /\
  exists s1 s2,
    signed_word (Finite (- (3 # 10))) = Ok s1 /\ signed_word (Finite (1 # 7)) = Ok s2 /\
    s1 <= s2.
Proof.
  split; [reflexivity |]. split; [reflexivity |]. split; [discriminate |].
  apply (signed_word_monotone (- (3 # 10)) (1 # 7)); [reflexivity | reflexivity | discriminate].
Defined.

(** The encoding is odd: the word of [-v] is the negated word of [v],
    because the conversion truncates toward zero. *)
Theorem signed_word_opp q :
  (Qabs q < 1)%Q ->
  exists s, signed_word (Finite q) = Ok s /\ signed_word (Finite (- q)) = Ok (- s).
Proof.
  intros H.
  assert (H' : (Qabs (- q) < 1)%Q) by (rewrite Qabs_opp; exact H).
  destruct (signed_word_small q H) as [E _], (signed_word_small (- q) H') as [E' _].
  exists (Qtrunc (scaled q)). split; [exact E |].
  rewrite E', scaled_opp, Qtrunc_opp. reflexivity.
Qed.

Lemma signed_word_opp_witness :
  (Qabs (3 # 10) < 1)%Q /\
  exists s, signed_word (Finite (3 # 10)) = Ok s /\ signed_word (Finite (- (3 # 10))) = Ok (- s).
Proof.
  split; [reflexivity |]. apply (signed_word_opp (3 # 10)). reflexivity.
Defined.

(** A sample that is a whole number of steps of 1/32768 is encoded
    without any loss: its word is the step count modulo 65536, and decoding
    the word yields the sample again. *)
Theorem convert_value_exact_on_steps k :
  - 32768 < k < 32768 ->
  convert_value (Finite (k # 32768)) = Ok (k mod 65536) /\
  (decode_sample (k mod 65536) == k # 32768)%Q.
Proof.
  intros H.
  assert (A : (Qabs (k # 32768) < 1)%Q).
  { apply Qabs_Qlt_condition. unfold Qlt. simpl. lia. }
  assert (T : Qtrunc (scaled (k # 32768)) = k).
  { unfold Qtrunc, scaled. simpl. apply Z.quot_mul. discriminate. }
  rewrite (convert_value_finite _ (abs_lt_1_in_double_range _ A)), T.
  assert (W : (if 0 <=? k then k else 65536 + k) = k mod 65536).
  { zbool.
    - rewrite Z.mod_small; lia.
    - apply Z.mod_unique with (q := -1); lia. }
  rewrite W. split; [reflexivity |].
  unfold decode_sample. rewrite <- W, to_signed16_wrap by lia.
  symmetry. apply Qmake_Qdiv.
Qed.

Lemma convert_value_exact_on_steps_witness :
  - 32768 < - 1 < 32768 /\
  convert_value (Finite (- 1 # 32768)) = Ok (- 1 mod 65536) /\
  (decode_sample (- 1 mod 65536) == - 1 # 32768)%Q.
Proof.
  split; [lia |]. apply (convert_value_exact_on_steps (- 1)). lia.
Defined.

Lemma convert_value_unconvertible v :
  unconvertible v -> convert_value v = Raise (conversion_error v).
Proof.
  destruct v as [q | | |]; simpl; intros H; try reflexivity.
  unfold convert_value, fmul_32768.
  destruct (Qle_bool (Qabs (q * inject_Z 32768)) (inject_Z DBL_MAX)) eqn:E.
  - apply Qle_bool_iff in E. contradiction.
  - destruct (0 <? Qnum q); reflexivity.
Qed.

Lemma convertible_or_not v : convertible v \/ unconvertible v.
Proof.
  destruct v as [q | | |]; simpl; try (right; exact I).
  destruct (Qlt_le_dec (inject_Z DBL_MAX) (Qabs (scaled q))) as [H | H].
  - right. unfold in_double_range. intros G. apply (Qlt_not_le _ _ H G).
  - left. eexists. apply (convert_value_finite q H).
Qed.

Lemma add_value_unconvertible bytes key p v :
  sample_at (samples_at (samples p) key) (idx p) = Ok v ->
  unconvertible v ->
  add_value bytes key p = (Raise (conversion_error v), p).
Proof.
  intros Hs Hu. unfold add_value, bind, get, lift. rewrite Hs.
  rewrite (convert_value_unconvertible v Hu). reflexivity.
Qed.

(** [add_value] raises exactly on the samples [int] cannot convert, and
    then before anything is appended or printed; on every other sample it
    returns with two more bytes. *)
Theorem add_value_raises_exactly_on_unconvertible bytes key p v :
  sample_at (samples_at (samples p) key) (idx p) = Ok v ->
  (unconvertible v -> add_value bytes key p = (Raise (conversion_error v), p)) /\
  (~ unconvertible v ->
   exists b p', add_value bytes key p = (Ok (bytes ++ b), p') /\ List.length b = 2%nat /\
                idx p' = idx p /\ samples p' = samples p).
Proof.
  intros Hs. split.
  - intros Hu. apply add_value_unconvertible; assumption.
  - intros Hn. destruct (convertible_or_not v) as [[n Hc] | Hu]; [| contradiction].
    rewrite (add_value_run bytes key p v n Hs Hc).
    destruct ((0 <=? n) && (n <? 65536)).
    + exists (be_digits 2 n), p. repeat split.
    + exists [x00; x00], (printed p (too_big_message n)). repeat split.
Qed.

Lemma add_value_raises_exactly_on_unconvertible_witness :
  let p := init_provider {| wave_x := [NaN]; wave_y := [Finite (inject_Z (10 ^ 308))];
                            wave_z := [Finite 1] |} in
  add_value [x01] AxisX p = (Raise ValueError, p) /\
  add_value [x01] AxisY p = (Raise OverflowError, p) /\
  exists b p', add_value [x01] AxisZ p = (Ok ([x01] ++ b), p') /\ List.length b = 2%nat /\
               idx p' = idx p /\ samples p' = samples p.
Proof.
  intros p.
  split; [| split].
  - apply (add_value_raises_exactly_on_unconvertible [x01] AxisX p NaN eq_refl). exact I.
  - apply (add_value_raises_exactly_on_unconvertible [x01] AxisY p
             (Finite (inject_Z (10 ^ 308))) eq_refl).
    vm_compute. intros H. apply H. reflexivity.
  - apply (add_value_raises_exactly_on_unconvertible [x01] AxisZ p (Finite 1) eq_refl).
    intros H. apply H. vm_compute. discriminate.
Defined.

End Samples.

(** ** The provider's other registers, its edge cases and its cursor *)

Module Provider.
Import I2cio.
Import Encoding.
Import Transport.

(** *** Registers other than the three the provider knows *)

Lemma to_bytes_1 x : 0 <= x < 256 -> to_bytes x 1 = Ok [byte_of_Z x].
Proof.
  intros H. unfold to_bytes. change (256 ^ Z.of_nat 1) with 256.
  destruct (Z.leb_spec 0 x); [| lia]. destruct (Z.ltb_spec x 256); [| lia].
  simpl. rewrite Z.mod_small by lia. reflexivity.
Qed.

Lemma placeholder_bytes_small xs :
  Forall (fun x => 0 <= x < 256) xs ->
  placeholder_bytes xs = Ok (map (fun x => [byte_of_Z x]) xs).
Proof.
  induction 1 as [| x xs Hx _ IH]; simpl; [reflexivity |].
  rewrite (to_bytes_1 x Hx), IH. reflexivity.
Qed.

Lemma placeholder_bytes_overflow xs x ys :
  Forall (fun x => 0 <= x < 256) xs -> 256 <= x ->
  placeholder_bytes (xs ++ x :: ys) = Raise OverflowError.
Proof.
  intros Hxs Hx. induction Hxs as [| a xs Ha _ IH]; simpl.
  - unfold to_bytes. change (256 ^ Z.of_nat 1) with 256.
    destruct (Z.leb_spec 0 x); [| lia]. destruct (Z.ltb_spec x 256); [lia |]. reflexivity.
  - rewrite (to_bytes_1 a Ha), IH. reflexivity.
Qed.

Lemma range_small n : n <= 256 -> Forall (fun x => 0 <= x < 256) (range n).
Proof.
  intros H. unfold range. apply Forall_forall. intros x Hx.
  apply in_map_iff in Hx. destruct Hx as [i [<- Hi]]. apply in_seq in Hi. lia.
Qed.

Lemma range_split n : 256 < n ->
  range n = range 256 ++ 256 :: map Z.of_nat (seq 257 (Z.to_nat n - 257)).
Proof.
  intros H. unfold range.
  replace (Z.to_nat n) with (256 + S (Z.to_nat n - 257))%nat by lia.
  rewrite seq_app, map_app.
  replace (256 + S (Z.to_nat n - 257) - 257)%nat with (Z.to_nat n - 257)%nat by lia.
  reflexivity.
Qed.

Lemma range_length n : List.length (range n) = Z.to_nat n.
Proof. unfold range. rewrite length_map, length_seq. reflexivity. Qed.

Section Registers.
Context `{regs : mpu6050}.

(** On a register that is none of the three, the provider answers 0 to a
    [read]; to a [read_block] of up to 256 bytes it answers that many
    one-byte entries counting up from 0 (none for a negative length); a
    longer block raises [OverflowError].  The provider itself is never
    changed. *)
Theorem provide_other_register (register : Z) (p : MockIoDataProvider) :
  register <> MPU6050_RA_INT_STATUS ->
  register <> MPU6050_RA_FIFO_COUNTH ->
  register <> MPU6050_RA_FIFO_R_W ->
  provide register None p = (Ok (PInt 0), p) /\
  (forall n, n <= 256 ->
     provide register (Some n) p
     = (Ok (PBytesList (map (fun x => [byte_of_Z x]) (range n))), p) /\
     List.length (range n) = Z.to_nat n) /\
  (forall n, 256 < n -> provide register (Some n) p = (Raise OverflowError, p)).
Proof.
  intros H1 H2 H3. apply Z.eqb_neq in H1, H2, H3.
  unfold provide. rewrite H1, H2, H3.
  split; [reflexivity |]. split.
  - intros n Hn. unfold bind, lift, ret.
    rewrite (placeholder_bytes_small _ (range_small n Hn)).
    split; [reflexivity | apply range_length].
  - intros n Hn. unfold bind, lift.
    rewrite (range_split n Hn), placeholder_bytes_overflow;
      [reflexivity | apply range_small; lia | lia].
Qed.

End Registers.

Lemma provide_other_register_witness :
  let p := init_provider small_wave in
  @provide mpu6050_regs 107 None p = (Ok (PInt 0), p) /\
  @provide mpu6050_regs 107 (Some 3) p = (Ok (PBytesList [[x00]; [x01]; [x02]]), p) /\
  @provide mpu6050_regs 107 (Some 257) p = (Raise OverflowError, p).
Proof.
  intros p.
  destruct (@provide_other_register mpu6050_regs 107 p
              ltac:(discriminate) ltac:(discriminate) ltac:(discriminate)) as [H0 [Hs Hb]].
  split; [exact H0 |]. split.
  - destruct (Hs 3 ltac:(lia)) as [E _]. exact E.
  - apply Hb. lia.
Defined.

(** *** The loop, piece by piece *)



Lemma fifo_loop_add n m : forall b p,
  fifo_loop (n + m) b p = bind (fifo_loop n b) (fifo_loop m) p.
Proof.
  induction n as [| n IH]; intros b p.
  - reflexivity.
  - cbn [Nat.add fifo_loop]. unfold bind at 1 2 3 4. unfold bind at 2 3 4 5.
    unfold bind at 1.
    destruct (add_value b AxisX p) as [[b1 | e] p1]; [| reflexivity].
    destruct (add_value b1 AxisY p1) as [[b2 | e] p2]; [| reflexivity].
    destruct (add_value b2 AxisZ p2) as [[b3 | e] p3]; [| reflexivity].
    unfold incr_idx, modify. rewrite IH. reflexivity.
Qed.

(** A loop that returns has moved the cursor by its count and has left the
    waveform alone. *)
Lemma add_value_keeps b key p r p' :
  add_value b key p = (r, p') -> idx p' = idx p /\ samples p' = samples p /\ slept p' = slept p.
Proof.
  unfold add_value, bind, get, lift, try_except, ret, print, modify.
  destruct (sample_at (samples_at (samples p) key) (idx p)) as [v | e];
    [| intros H; inversion H; repeat split].
  destruct (convert_value v) as [n | e]; [| intros H; inversion H; repeat split].
  destruct (to_bytes n 2) as [r' | []]; intros H; inversion H; repeat split.
Qed.

Lemma fifo_loop_keeps n : forall b p r p',
  fifo_loop n b p = (Ok r, p') -> idx p' = (idx p + n)%nat /\ samples p' = samples p.
Proof.
  induction n as [| n IH]; intros b p r p'.
  - simpl. unfold ret. intros H. inversion H. split; [lia | reflexivity].
  - cbn [fifo_loop]. unfold bind, incr_idx, modify.
    destruct (add_value b AxisX p) as [[b1 | e] p1] eqn:E1; [| discriminate].
    destruct (add_value b1 AxisY p1) as [[b2 | e] p2] eqn:E2; [| discriminate].
    destruct (add_value b2 AxisZ p2) as [[b3 | e] p3] eqn:E3; [| discriminate].
    intros H. apply IH in H. simpl in H.
    apply add_value_keeps in E1, E2, E3.
    destruct H as [Hi Hs], E1 as [I1 [S1 _]], E2 as [I2 [S2 _]], E3 as [I3 [S3 _]].
    split; [lia | congruence].
Qed.

(** *** Changes of the provider the loop does not see *)

Section Frame.
Variable f : MockIoDataProvider -> MockIoDataProvider.
Variable Inv : MockIoDataProvider -> Prop.
Hypothesis Inv_printed : forall p l, Inv p -> Inv (printed p l).
Hypothesis Inv_next : forall p, Inv p ->
  Inv {| idx := S (idx p); samples := samples p; stdout := stdout p; slept := slept p |}.
Hypothesis f_draw : forall p key, Inv p ->
  sample_at (samples_at (samples (f p)) key) (idx (f p))
  = sample_at (samples_at (samples p) key) (idx p).
Hypothesis f_printed : forall p l, f (printed p l) = printed (f p) l.
Hypothesis f_next : forall p,
  f {| idx := S (idx p); samples := samples p; stdout := stdout p; slept := slept p |}
  = {| idx := S (idx (f p)); samples := samples (f p); stdout := stdout (f p);
       slept := slept (f p) |}.

Lemma add_value_frame b key p :
  Inv p ->
  add_value b key (f p) = (fst (add_value b key p), f (snd (add_value b key p)))
  /\ Inv (snd (add_value b key p)).
Proof.
  intros HI.
  unfold add_value, bind, get, lift, try_except, ret, print, modify.
  rewrite (f_draw p key HI).
  destruct (sample_at (samples_at (samples p) key) (idx p)) as [v | e];
    [| split; [reflexivity | exact HI]].
  destruct (convert_value v) as [n | e]; [| split; [reflexivity | exact HI]].
  destruct (to_bytes n 2) as [r | []]; simpl;
    try (split; [reflexivity | exact HI]).
  rewrite f_printed. split; [reflexivity | apply Inv_printed; exact HI].
Qed.

Lemma fifo_loop_frame n : forall b p,
  Inv p ->
  fifo_loop n b (f p) = (fst (fifo_loop n b p), f (snd (fifo_loop n b p))).
Proof.
  induction n as [| n IH]; intros b p HI.
  - reflexivity.
  - cbn [fifo_loop]. unfold bind, incr_idx, modify.
    destruct (add_value_frame b AxisX p HI) as [E1 I1]. rewrite E1.
    destruct (add_value b AxisX p) as [[b1 | e] p1]; [| reflexivity]. simpl in *.
    destruct (add_value_frame b1 AxisY p1 I1) as [E2 I2]. rewrite E2.
    destruct (add_value b1 AxisY p1) as [[b2 | e] p2]; [| reflexivity]. simpl in *.
    destruct (add_value_frame b2 AxisZ p2 I2) as [E3 I3]. rewrite E3.
    destruct (add_value b2 AxisZ p2) as [[b3 | e] p3]; [| reflexivity]. simpl in *.
    rewrite <- f_next. apply IH. apply Inv_next. exact I3.
Qed.

End Frame.


Lemma sample_at_round (l : list pyfloat) i c :
  sample_at l (i + c * List.length l) = sample_at l i.
Proof.
  unfold sample_at. destruct l as [| a l]; [reflexivity |].
  rewrite Nat.Div0.mod_add. reflexivity.
Qed.

Lemma fifo_loop_advanced n b p L :
  whole_rounds (samples p) L ->
  fifo_loop n b (advanced p L) = (fst (fifo_loop n b p), advanced (snd (fifo_loop n b p)) L).
Proof.
  apply (fifo_loop_frame (fun p => advanced p L) (fun p => whole_rounds (samples p) L)); auto.
  intros q key H. destruct (H key) as [c ->]. simpl. apply sample_at_round.
Qed.

(** *** The FIFO register *)

Section Fifo.
Context `{regs : mpu6050}.
Hypothesis fifo_not_status : MPU6050_RA_FIFO_R_W <> MPU6050_RA_INT_STATUS.
Hypothesis fifo_not_count : MPU6050_RA_FIFO_R_W <> MPU6050_RA_FIFO_COUNTH.

Lemma sets_of_length (n : nat) : 6 * Z.of_nat n / 6 = Z.of_nat n.
Proof. rewrite Z.mul_comm. apply Z.div_mul. discriminate. Qed.

Lemma provide_fifo_run length p :
  provide MPU6050_RA_FIFO_R_W (Some length) p
  = match fifo_loop (Z.to_nat (length / 6)) [] p with
    | (Ok bytes, p') =>
        if (length / 6 <? - 4611686018427) || (4611686018427 <? length / 6)
        then (Raise OverflowError, p')
        else if length / 6 <? 0 then (Raise ValueError, p')
        else (Ok (PByteArray bytes), rested p' (length / 6))
    | (Raise e, p') => (Raise e, p')
    end.
Proof.
  rewrite (provide_fifo fifo_not_status fifo_not_count). unfold bind.
  destruct (fifo_loop (Z.to_nat (length / 6)) [] p) as [[bytes | e] p']; [| reflexivity].
  rewrite sleep_run.
  destruct ((length / 6 <? - 4611686018427) || (4611686018427 <? length / 6));
    [reflexivity |].
  destruct (length / 6 <? 0); reflexivity.
Qed.

(** A read of [n] whole sample sets, by the sleep that ends it. *)
Lemma provide_fifo_sets (n : nat) p :
  provide MPU6050_RA_FIFO_R_W (Some (6 * Z.of_nat n)) p
  = match fifo_loop n [] p with
    | (Ok bytes, p') =>
        if 4611686018427 <? Z.of_nat n then (Raise OverflowError, p')
        else (Ok (PByteArray bytes), rested p' (Z.of_nat n))
    | (Raise e, p') => (Raise e, p')
    end.
Proof.
  rewrite provide_fifo_run, sets_of_length, Nat2Z.id.
  destruct (fifo_loop n [] p) as [[bytes | e] p']; [| reflexivity].
  destruct (Z.ltb_spec (Z.of_nat n) (- 4611686018427)); [lia |].
  destruct (Z.ltb_spec 4611686018427 (Z.of_nat n)); [reflexivity |].
  destruct (Z.ltb_spec (Z.of_nat n) 0); [lia | reflexivity].
Qed.

Lemma provide_fifo_nothing_to_play length p :
  6 <= length -> wave_x (samples p) = [] ->
  provide MPU6050_RA_FIFO_R_W (Some length) p = (Raise ZeroDivisionError, p).
Proof.
  intros Hn Hx. rewrite provide_fifo_run.
  assert (1 <= length / 6) by (apply Z.div_le_lower_bound; lia).
  destruct (Z.to_nat (length / 6)) as [| k] eqn:E; [lia |].
  cbn [fifo_loop]. unfold bind at 1, add_value at 1, bind at 1, get, lift. simpl.
  rewrite Hx. reflexivity.
Qed.

Lemma provide_fifo_negative length p :
  length < 0 ->
  provide MPU6050_RA_FIFO_R_W (Some length) p
  = (Raise (if length <? - 27670116110562 then OverflowError else ValueError), p).
Proof.
  intros Hn. rewrite provide_fifo_run.
  assert (Hq : length / 6 < 0) by (apply Z.div_lt_upper_bound; lia).
  replace (Z.to_nat (length / 6)) with 0%nat by lia. cbn [fifo_loop ret].
  pose proof (Z.div_mod length 6 ltac:(lia)) as D.
  pose proof (Z.mod_pos_bound length 6 ltac:(lia)) as B.
  destruct (Z.ltb_spec length (- 27670116110562));
    destruct (Z.ltb_spec (length / 6) (- 4611686018427));
    destruct (Z.ltb_spec 4611686018427 (length / 6));
    destruct (Z.ltb_spec (length / 6) 0); try lia; reflexivity.
Qed.

(** The FIFO register at its edges: a [read] (no length) raises
    [TypeError]; a negative length draws nothing and fails in the sleep,
    with [ValueError] down to -27670116110562 and with [OverflowError]
    below, where the duration no longer fits the 64-bit nanoseconds of
    [time.sleep]; fewer than 6 bytes asked give an empty block, even with
    nothing to play; with nothing to play on x, 6 bytes or more raise
    [ZeroDivisionError].  None of these failures moves the cursor. *)
Theorem provide_fifo_edges (p : MockIoDataProvider) :
  provide MPU6050_RA_FIFO_R_W None p = (Raise TypeError, p) /\
  (forall n, n < 0 ->
     provide MPU6050_RA_FIFO_R_W (Some n) p
     = (Raise (if n <? - 27670116110562 then OverflowError else ValueError), p)) /\
  (forall n, 0 <= n < 6 ->
     provide MPU6050_RA_FIFO_R_W (Some n) p = (Ok (PByteArray []), rested p 0)) /\
  (forall n, 6 <= n -> wave_x (samples p) = [] ->
     provide MPU6050_RA_FIFO_R_W (Some n) p = (Raise ZeroDivisionError, p)).
Proof.
  split; [| split; [| split]].
  - unfold provide. apply Z.eqb_neq in fifo_not_status, fifo_not_count.
    rewrite fifo_not_status, fifo_not_count, Z.eqb_refl. reflexivity.
  - intros n Hn. apply provide_fifo_negative. exact Hn.
  - intros n Hn. rewrite provide_fifo_run.
    rewrite (Z.div_small n 6 Hn). reflexivity.
  - intros n Hn Hx. apply provide_fifo_nothing_to_play; assumption.
Qed.


(** A read that fails at the x sample of its set number [k] (counting from
    0) has by then moved the cursor by [k]: the sets it had drawn are lost
    to the caller and will not be drawn again. *)
Theorem provide_fifo_fails_midway (k n : nat) (p p1 : MockIoDataProvider) b v :
  provide MPU6050_RA_FIFO_R_W (Some (6 * Z.of_nat k)) p = (Ok (PByteArray b), p1) ->
  sample_at (wave_x (samples p1)) (idx p1) = Ok v ->
  unconvertible v ->
  (k < n)%nat ->
  exists p',
    provide MPU6050_RA_FIFO_R_W (Some (6 * Z.of_nat n)) p = (Raise (conversion_error v), p') /\
    idx p' = (idx p + k)%nat /\ stdout p' = stdout p1.
Proof.
  rewrite !provide_fifo_sets.
  destruct (fifo_loop k [] p) as [[r1 | e] q1] eqn:E1; [| discriminate].
  destruct (4611686018427 <? Z.of_nat k); [discriminate |].
  intros Hp1 Hs Hu Hk. inversion Hp1; subst r1 p1; clear Hp1.
  replace n with (k + S (n - k - 1))%nat by lia.
  rewrite fifo_loop_add. unfold bind at 1. rewrite E1.
  cbn [fifo_loop]. unfold bind at 1.
  rewrite (Samples.add_value_unconvertible b AxisX q1 v Hs Hu).
  exists q1. split; [reflexivity |].
  apply fifo_loop_keeps in E1. destruct E1 as [I1 _]. split; [exact I1 | reflexivity].
Qed.

End Fifo.

(** Playback goes round: a provider whose cursor is a whole number of
    rounds of every axis further answers every call alike, and ends as far
    ahead. *)
Theorem provide_whole_rounds_later `{regs : mpu6050} (register : Z) (length : option Z)
    (p : MockIoDataProvider) (L : nat) :
  whole_rounds (samples p) L ->
  provide register length (advanced p L)
  = (fst (provide register length p), advanced (snd (provide register length p)) L).
Proof.
  intros H. unfold provide.
  destruct (register =? MPU6050_RA_INT_STATUS); [reflexivity |].
  destruct (register =? MPU6050_RA_FIFO_COUNTH); [reflexivity |].
  destruct (register =? MPU6050_RA_FIFO_R_W).
  - destruct length as [n |]; [| reflexivity].
    unfold bind at 1 3 5. rewrite (fifo_loop_advanced _ _ p L H).
    destruct (fifo_loop (Z.to_nat (n / 6)) [] p) as [[r | e] q]; [| reflexivity].
    unfold bind. rewrite !sleep_run. cbn [fst snd].
    destruct ((n / 6 <? - 4611686018427) || (4611686018427 <? n / 6)); [reflexivity |].
    destruct (n / 6 <? 0); reflexivity.
  - destruct length as [n |]; [| reflexivity].
    unfold bind, lift. destruct (placeholder_bytes (range n)); reflexivity.
Qed.

Lemma provide_fifo_edges_witness :
  let p := init_provider {| wave_x := []; wave_y := []; wave_z := [] |} in
  @provide mpu6050_regs 116 None p = (Raise TypeError, p) /\
  @provide mpu6050_regs 116 (Some (- 1)) p = (Raise ValueError, p) /\
  @provide mpu6050_regs 116 (Some (- 27670116110562)) p = (Raise ValueError, p) /\
  @provide mpu6050_regs 116 (Some (- 27670116110563)) p = (Raise OverflowError, p) /\
  @provide mpu6050_regs 116 (Some 5) p = (Ok (PByteArray []), rested p 0) /\
  @provide mpu6050_regs 116 (Some 6) p = (Raise ZeroDivisionError, p).
Proof.
  intros p.
  destruct (@provide_fifo_edges mpu6050_regs ltac:(discriminate) ltac:(discriminate) p)
    as [H0 [H1 [H2 H3]]].
  split; [exact H0 |]. split; [apply (H1 (- 1)); lia |].
  split; [apply (H1 (- 27670116110562)); lia |].
  split; [apply (H1 (- 27670116110563)); lia |].
  split; [apply H2; lia |].
  apply H3; [lia | reflexivity].
Defined.


Lemma provide_fifo_fails_midway_witness :
  let w := {| wave_x := [Finite (1 # 2); NaN]; wave_y := [Finite 0]; wave_z := [Finite 0] |} in
  let p := init_provider w in
  let p1 := {| idx := 1; samples := w; stdout := []; slept := [1] |} in
  @provide mpu6050_regs 116 (Some (6 * Z.of_nat 1)) p
  = (Ok (PByteArray [x40; x00; x00; x00; x00; x00]), p1) /\
  sample_at (wave_x (samples p1)) (idx p1) = Ok NaN /\
  unconvertible NaN /\
  exists p',
    @provide mpu6050_regs 116 (Some (6 * Z.of_nat 2)) p = (Raise (conversion_error NaN), p') /\
    idx p' = (idx p + 1)%nat /\ stdout p' = stdout p1.
Proof.
  intros w p p1.
  assert (E1 : @provide mpu6050_regs 116 (Some (6 * Z.of_nat 1)) p
               = (Ok (PByteArray [x40; x00; x00; x00; x00; x00]), p1))
    by (vm_compute; reflexivity).
  split; [exact E1 |]. split; [reflexivity |]. split; [exact I |].
  apply (@provide_fifo_fails_midway mpu6050_regs ltac:(discriminate) ltac:(discriminate)
           1 2 p p1 _ NaN E1 eq_refl I).
  lia.
Defined.

Lemma small_wave_whole_rounds : whole_rounds small_wave 6.
Proof. intros key. destruct key; [exists 3%nat | exists 6%nat | exists 2%nat]; reflexivity. Defined.

Lemma provide_whole_rounds_later_witness :
  let p := init_provider small_wave in
  whole_rounds (samples p) 6 /\
  @provide mpu6050_regs 116 (Some 18) (advanced p 6)
  = (fst (@provide mpu6050_regs 116 (Some 18) p),
     advanced (snd (@provide mpu6050_regs 116 (Some 18) p)) 6).
Proof.
  intros p. split; [exact small_wave_whole_rounds |].
  apply (@provide_whole_rounds_later mpu6050_regs 116 (Some 18) p 6 small_wave_whole_rounds).
Defined.

(** *** The recording transport *)

Lemma with_queue_same {P V} (io : mockIO P V) : with_queue io (vals_to_read io) = io.
Proof. destruct io. reflexivity. Qed.

Lemma writes_run {P V} (ws : list (Z * Z * Z)) : forall io : mockIO P V,
  writes ws io
  = (Ok tt, {| values_written := values_written io ++ ws;
               data_provider := data_provider io;
               provider_self := provider_self io;
               vals_to_read := vals_to_read io |}).
Proof.
  induction ws as [| [[a r] v] ws IH]; intros io.
  - simpl. unfold ret. rewrite app_nil_r. destruct io. reflexivity.
  - simpl. unfold bind, write, modify. rewrite IH. simpl. rewrite <- app_assoc. reflexivity.
Qed.

Lemma read_with_log {P V} (io : mockIO P V) register length :
  values_written (snd (read_with register length io)) = values_written io.
Proof.
  rewrite read_with_cases. unfold get_nowait.
  destruct (data_provider io) as [f |].
  - destruct (f register length (provider_self io)) as [[[v |] | e] p']; try reflexivity.
    simpl. destruct (vals_to_read io); reflexivity.
  - destruct (vals_to_read io); reflexivity.
Qed.

Lemma reads_log {P V} (rs : list (Z * option Z)) : forall io : mockIO P V,
  values_written (snd (reads rs io)) = values_written io.
Proof.
  induction rs as [| [register length] rs IH]; intros io; [reflexivity |].
  simpl. unfold bind at 1.
  pose proof (read_with_log io register length) as L.
  destruct (read_with register length io) as [[v | e] io1]; simpl in L; [| exact L].
  unfold bind. specialize (IH io1).
  destruct (reads rs io1) as [[vs | e] io2]; simpl in *; congruence.
Qed.

(** The write log is append only: writes are recorded in the order they
    are made, after what was recorded before, and touch neither the queue
    nor the provider; no read, answered or failed, changes the log. *)
Theorem write_log_append_only {P V} (io : mockIO P V)
    (ws : list (Z * Z * Z)) (rs : list (Z * option Z)) :
  writes ws io
  = (Ok tt, {| values_written := values_written io ++ ws;
               data_provider := data_provider io;
               provider_self := provider_self io;
               vals_to_read := vals_to_read io |}) /\
  values_written (snd (reads rs io)) = values_written io /\
  values_written (snd (bind (writes ws) (fun _ => reads rs) io)) = values_written io ++ ws.
Proof.
  split; [apply writes_run |]. split; [apply reads_log |].
  unfold bind. rewrite writes_run. rewrite reads_log. reflexivity.
Qed.

Lemma reads_queue {P V} (rs : list (Z * option Z)) : forall io : mockIO P V,
  data_provider io = None ->
  reads rs io
  = if (List.length rs <=? List.length (vals_to_read io))%nat
    then (Ok (firstn (List.length rs) (vals_to_read io)),
          with_queue io (skipn (List.length rs) (vals_to_read io)))
    else (Raise Empty, with_queue io []).
Proof.
  induction rs as [| [register length] rs IH]; intros io Hd.
  - simpl. unfold ret. rewrite with_queue_same. reflexivity.
  - cbn [reads]. unfold bind at 1. rewrite read_with_cases, Hd. unfold get_nowait.
    destruct (vals_to_read io) as [| v q] eqn:Q.
    + simpl. rewrite <- Q, with_queue_same. reflexivity.
    + unfold bind. rewrite IH by exact Hd. cbn [vals_to_read with_queue List.length].
      change (S (List.length rs) <=? S (List.length q))%nat
        with (List.length rs <=? List.length q)%nat.
      destruct (List.length rs <=? List.length q)%nat; reflexivity.
Qed.

(** Without a provider the transport is the queue: reads return the queued
    values first in, first out, whatever the registers asked, and remove
    them; the first read past the last queued value raises [Empty], with
    the values before it consumed. *)
Theorem reads_drain_queue_in_order {P V} (io : mockIO P V) (rs : list (Z * option Z)) :
  data_provider io = None ->
  ((List.length rs <= List.length (vals_to_read io))%nat ->
   reads rs io = (Ok (firstn (List.length rs) (vals_to_read io)),
                  with_queue io (skipn (List.length rs) (vals_to_read io)))) /\
  ((List.length (vals_to_read io) < List.length rs)%nat ->
   reads rs io = (Raise Empty, with_queue io [])).
Proof.
  intros Hd. rewrite (reads_queue rs io Hd). split; intros H.
  - apply Nat.leb_le in H. rewrite H. reflexivity.
  - apply Nat.leb_gt in H. rewrite H. reflexivity.
Qed.

Lemma reads_drain_queue_in_order_witness :
  let io := with_queue (init_mockIO None (init_provider small_wave)) [PInt 7; PInt 8] in
  data_provider io = None /\
  @reads MockIoDataProvider pyval [(58, None); (116, Some 6)] io
  = (Ok [PInt 7; PInt 8], with_queue io []) /\
  @reads MockIoDataProvider pyval [(58, None); (116, Some 6); (58, None)] io
  = (Raise Empty, with_queue io []).
Proof.
  intros io.
  split; [reflexivity |]. split.
  - apply (@reads_drain_queue_in_order MockIoDataProvider pyval io
             [(58, None); (116, Some 6)] eq_refl). simpl. lia.
  - apply (@reads_drain_queue_in_order MockIoDataProvider pyval io
             [(58, None); (116, Some 6); (58, None)] eq_refl). simpl. lia.
Defined.









End Provider.

(** ** The file backed provider *)

Module Wav.
Import I2cio.
Import Transport.

Section Struct.
Context `{st : struct_module}.

Lemma unpack_doubles_length n : forall data, List.length (unpack_doubles n data) = n.
Proof. induction n as [| n IH]; intros data; simpl; [reflexivity | rewrite IH; reflexivity]. Qed.

Lemma unpack_doubles_nth n : forall data i,
  (i < n)%nat ->
  nth_error (unpack_doubles n data) i = Some (unpack_d (firstn 8 (skipn (8 * i) data))).
Proof.
  induction n as [| n IH]; intros data i Hi; [lia |].
  destruct i as [| i].
  - reflexivity.
  - cbn [unpack_doubles nth_error]. rewrite IH by lia.
    rewrite skipn_skipn. replace (8 * i + 8)%nat with (8 * S i)%nat by lia. reflexivity.
Qed.

(** [WavProvider] refuses a file whose size is no multiple of 8 with a
    [ValueError]; of any other file it makes a provider at cursor 0 that
    plays one list on all three axes, one sample for every 8 bytes of the
    file in order, so that every sample set is one word three times. *)
Theorem WavProvider_reads_doubles (file : list byte) :
  (Z.of_nat (List.length file) mod 8 <> 0 -> WavProvider file = Raise ValueError) /\
  (Z.of_nat (List.length file) mod 8 = 0 ->
   exists data,
     WavProvider file
     = Ok (init_provider {| wave_x := data; wave_y := data; wave_z := data |}) /\
     Z.of_nat (List.length data) = Z.of_nat (List.length file) / 8 /\
     (forall i, (i < List.length data)%nat ->
        nth_error data i = Some (unpack_d (firstn 8 (skipn (8 * i) file)))) /\
     (forall i,
        sample_set_at {| wave_x := data; wave_y := data; wave_z := data |} i
        = encoded_at {| wave_x := data; wave_y := data; wave_z := data |} AxisX i
          ++ encoded_at {| wave_x := data; wave_y := data; wave_z := data |} AxisX i
          ++ encoded_at {| wave_x := data; wave_y := data; wave_z := data |} AxisX i)).
Proof.
  unfold WavProvider. split; intros H.
  - apply Z.eqb_neq in H. rewrite H. reflexivity.
  - apply Z.eqb_eq in H. rewrite H. simpl.
    eexists. split; [reflexivity |].
    rewrite unpack_doubles_length.
    split; [| split].
    + rewrite Z2Nat.id; [reflexivity | apply Z.div_pos; lia].
    + intros i Hi. apply unpack_doubles_nth. exact Hi.
    + intros i. reflexivity.
Qed.

End Struct.

Lemma WavProvider_reads_doubles_witness :
  Z.of_nat (List.length [x00; x01; x02]) mod 8 <> 0 /\
  @WavProvider struct_le [x00; x01; x02] = Raise ValueError /\
  Z.of_nat (List.length example_file) mod 8 = 0 /\
  exists data,
    @WavProvider struct_le example_file
    = Ok (init_provider {| wave_x := data; wave_y := data; wave_z := data |}) /\
    Z.of_nat (List.length data) = 3.
Proof.
  destruct (@WavProvider_reads_doubles struct_le [x00; x01; x02]) as [Hbad _].
  destruct (@WavProvider_reads_doubles struct_le example_file) as [_ Hgood].
  destruct (Hgood eq_refl) as [data [E [L _]]].
  split; [discriminate |]. split; [apply Hbad; discriminate |]. split; [reflexivity |].
  exists data. split; [exact E | exact L].
Defined.

Example WavProvider_example_file :
  match @WavProvider struct_le example_file with
  | Ok p => fst (@provide mpu6050_regs 116 (Some 12) p)
  | Raise e => Raise e
  end
  = Ok (PByteArray [x40; x00; x40; x00; x40; x00; xe0; x00; xe0; x00; xe0; x00]).
Proof. vm_compute. reflexivity. Qed.

(** An empty file passes the size check: the provider is built, and fails
    with [ZeroDivisionError] at the first read of a sample set. *)
Theorem WavProvider_empty_file `{st : struct_module} `{regs : mpu6050} :
  MPU6050_RA_FIFO_R_W <> MPU6050_RA_INT_STATUS ->
  MPU6050_RA_FIFO_R_W <> MPU6050_RA_FIFO_COUNTH ->
  exists p,
    WavProvider [] = Ok p /\
    forall length, 6 <= length ->
      provide MPU6050_RA_FIFO_R_W (Some length) p = (Raise ZeroDivisionError, p).
Proof.
  intros H1 H2. eexists. split; [reflexivity |].
  intros length Hl. apply (Provider.provide_fifo_nothing_to_play H1 H2); [exact Hl | reflexivity].
Qed.

Lemma WavProvider_empty_file_witness :
  exists p,
    @WavProvider struct_le [] = Ok p /\
    forall length, 6 <= length ->
      @provide mpu6050_regs 116 (Some length) p = (Raise ZeroDivisionError, p).
Proof.
  apply (@WavProvider_empty_file struct_le mpu6050_regs); discriminate.
Defined.

End Wav.

(** ** Commands, one line at a time and over a connection *)

Module Session.
Import Interface.
Import Protocol.
Local Open Scope list_scope.
Local Open Scope string_scope.

Lemma skeleton_set_state name st ds : skeleton (set_state name st ds) = skeleton ds.
Proof.
  unfold skeleton. induction ds as [| [k d] ds IH]; simpl; [reflexivity |].
  destruct (String.eqb k name); simpl; [reflexivity | rewrite IH; reflexivity].
Qed.

Lemma well_named_set_state name m ds :
  dict_get "name" m = Some (JStr name) ->
  well_named ds -> well_named (set_state name (JObj m) ds).
Proof.
  intros Hm. induction ds as [| [k d] ds IH]; intros Hw; simpl; [exact Hw |].
  destruct (String.eqb k name) eqn:E.
  - apply String.eqb_eq in E. subst k.
    intros k' d' [H | H].
    + inversion H; subst. exists m. split; [reflexivity | exact Hm].
    + apply (Hw k' d'). right. exact H.
  - intros k' d' [H | H].
    + apply (Hw k' d'). left. exact H.
    + apply IH; [| exact H]. intros k'' d'' H'. apply (Hw k'' d''). right. exact H'.
Qed.

Lemma accepts_app es es' : accepts (es ++ es')%list = (accepts es ++ accepts es')%list.
Proof. unfold accepts. apply flat_map_app. Qed.

Lemma log_entry_quiet line e :
  sent [log_entry line e] = [] /\ accepts [log_entry line e] = [].
Proof. destruct e; split; reflexivity. Qed.

Section Codec.
Context `{codec : JsonCodec}.

Lemma handle_get_run tokens p :
  handle_get tokens p
  = match tokens with
    | [] => (Raise IndexError, p)
    | [_] => send_device_state (JArr (map (fun kd => state (snd kd)) (devices p))) p
    | _ :: name :: _ =>
        match lookup name (devices p) with
        | Some d => send_device_state (state d) p
        | None => (Ok tt, p)
        end
    end.
Proof.
  destruct tokens as [| t [| name rest]]; try reflexivity.
  unfold handle_get, bind, lift, get, token. simpl.
  destruct (lookup name (devices p)); reflexivity.
Qed.

Lemma handle_str_run tokens p :
  handle_str tokens p
  = match tokens with
    | [_; name] =>
        match lookup name (devices p) with
        | Some d =>
            match json_dumps (self_test_results d) with
            | Ok y => (Ok tt, after_send p y)
            | Raise e => (Raise e, p)
            end
        | None => (Ok tt, p)
        end
    | _ => (Ok tt, p)
    end.
Proof.
  destruct tokens as [| t [| name [| x rest]]]; try reflexivity.
  unfold handle_str, bind, lift, get, token. simpl.
  destruct (lookup name (devices p)) as [d |]; [| reflexivity].
  destruct (json_dumps (self_test_results d)); reflexivity.
Qed.

(** A state sent from inside the [try]: the frame, or the log entry of
    what [json.dumps] raised. *)
Lemma try_send_device_state line j p :
  try_except (send_device_state j) (fun _ => true) (log_failure line) p
  = (Ok tt,
     match json_dumps j with
     | Ok y => after_send p (str_of_int (Z.of_nat (String.length y)) ++ "|" ++ y)
     | Raise e => after_event p (log_entry line e)
     end).
Proof.
  unfold try_except. rewrite send_device_state_run.
  destruct (json_dumps j) as [y | e]; [reflexivity |].
  destruct (log_failure_run line e p) as [-> _]. reflexivity.
Qed.

Lemma dispatch_run t0 toks p :
  dispatch (t0 :: toks) p
  = match Command_of_name t0 with
    | Ok GET => handle_get (t0 :: toks) p
    | Ok SET => handle_set (t0 :: toks) p
    | Ok STR => handle_str (t0 :: toks) p
    | Raise e => (Raise e, p)
    end.
Proof.
  unfold dispatch, bind, lift, token. simpl.
  destruct (Command_of_name t0) as [[| |] | e]; reflexivity.
Qed.

(** The four things a line that decodes can come to: nothing, a line
    sent, a log entry, or a state replaced together with one of the two. *)
Lemma lineReceived_outcome line text p :
  decode line = Ok text ->
  lineReceived line p = (Ok tt, p)
  \/ (exists l, lineReceived line p = (Ok tt, after_send p l))
  \/ (exists e, lineReceived line p = (Ok tt, after_event p (log_entry line e)))
  \/ (exists m name d ev,
        names_device (split_pipe text) p m name d /\
        lineReceived line p = (Ok tt, after_set p name (JObj m) ev) /\
        ((exists l, ev = SendLine l) \/ (exists e, ev = log_entry line e))).
Proof.
  intros Hd.
  destruct (split_pipe_nonempty text) as [t0 [toks Hs]].
  destruct (Command_of_name t0) as [[| |] | e] eqn:Hc.
  - rewrite (lineReceived_decoded line text p Hd), Hs.
    assert (D : dispatch (t0 :: toks) = handle_get (t0 :: toks)).
    { unfold dispatch, bind, lift, token. simpl. rewrite Hc. reflexivity. }
    rewrite D. destruct toks as [| name rest].
    + unfold try_except. rewrite handle_get_run. cbv beta iota.
      pose proof (try_send_device_state line
                    (JArr (map (fun kd => state (snd kd)) (devices p))) p) as T.
      unfold try_except in T. rewrite T.
      destruct (json_dumps _); [right; left | right; right; left]; eexists; reflexivity.
    + unfold try_except. rewrite handle_get_run. cbv beta iota.
      destruct (lookup name (devices p)) as [d |]; [| left; reflexivity].
      pose proof (try_send_device_state line (state d) p) as T.
      unfold try_except in T. rewrite T.
      destruct (json_dumps _); [right; left | right; right; left]; eexists; reflexivity.
  - assert (t0 = "SET") as ->.
    { unfold Command_of_name in Hc.
      destruct (String.eqb_spec t0 "GET"); [discriminate |].
      destruct (String.eqb_spec t0 "SET"); [assumption |].
      destruct (String.eqb t0 "STR"); discriminate. }
    destruct (handle_set_cases ("SET" :: toks) p) as [(m & name & d & Hn & _) | [_ E]].
    + right. right. right. exists m, name, d. eexists.
      rewrite Hs. split; [exact Hn |].
      split; [apply (lineReceived_set line text toks p m name d Hd Hs Hn) |].
      destruct (json_dumps (JObj m)); [left | right]; eexists; reflexivity.
    + rewrite (lineReceived_decoded line text p Hd), Hs, dispatch_SET. unfold try_except.
      destruct (handle_set ("SET" :: toks) p) as [[[] | e] p']; simpl in E; subst p'.
      * left. reflexivity.
      * right. right. left. exists e.
        destruct (log_failure_run line e p) as [-> _]. reflexivity.
  - rewrite (lineReceived_decoded line text p Hd), Hs.
    unfold try_except. rewrite dispatch_run, Hc, handle_str_run.
    destruct toks as [| name [| x rest]]; try (left; reflexivity).
    destruct (lookup name (devices p)) as [d |]; [| left; reflexivity].
    destruct (json_dumps (self_test_results d)) as [y | e].
    + right. left. eexists. reflexivity.
    + right. right. left. exists e.
      destruct (log_failure_run line e p) as [-> _]. reflexivity.
  - rewrite (lineReceived_decoded line text p Hd), Hs.
    unfold try_except. rewrite dispatch_run, Hc.
    right. right. left. exists e.
    destruct (log_failure_run line e p) as [-> _]. reflexivity.
Qed.

Lemma decode_error line e : decode line = Raise e -> e = UnicodeDecodeError.
Proof. unfold decode. destruct (utf8_valid line); intros H; inversion H; reflexivity. Qed.

(** What one line, decodable or not, can change. *)
Lemma lineReceived_step line p :
  skeleton (devices (snd (lineReceived line p))) = skeleton (devices p) /\
  handlers (snd (lineReceived line p)) = handlers p /\
  (well_named (devices p) -> well_named (devices (snd (lineReceived line p)))) /\
  exists es,
    trace (snd (lineReceived line p)) = (trace p ++ es)%list /\
    (List.length es <= 1)%nat /\ accepts es = [] /\
    (List.length (sent es) <= 1)%nat.
Proof.
  destruct (decode line) as [text | e] eqn:Hd.
  - destruct (lineReceived_outcome line text p Hd)
      as [E | [[l E] | [[e E] | (m & name & d & ev & Hn & E & Hev)]]]; rewrite E; simpl.
    + repeat split; try (intros H; exact H).
      exists []. rewrite app_nil_r. repeat split; simpl; lia.
    + repeat split; try (intros H; exact H).
      exists [SendLine l]. repeat split; simpl; lia.
    + repeat split; try (intros H; exact H).
      destruct (log_entry_quiet line e) as [Hs Ha].
      exists [log_entry line e]. rewrite Hs. repeat split; simpl; try lia. exact Ha.
    + destruct Hn as (arg & _ & _ & Hm & _).
      split; [apply skeleton_set_state |]. split; [reflexivity |].
      split; [intros Hw; apply well_named_set_state; [exact Hm | exact Hw] |].
      exists [ev]. destruct Hev as [[l ->] | [e ->]].
      * repeat split; simpl; lia.
      * destruct (log_entry_quiet line e) as [Hs Ha]. rewrite Hs.
        repeat split; simpl; try lia. exact Ha.
  - rewrite (undecodable_line_raises line e p Hd). simpl.
    repeat split; try (intros H; exact H).
    exists []. rewrite app_nil_r. repeat split; simpl; lia.
Qed.

(** Only decoding can make [lineReceived] raise: a line that is UTF-8
    always returns normally, whatever its command, argument or device, and
    a line that is not raises [UnicodeDecodeError] with nothing done. *)
Theorem lineReceived_raises_only_on_decoding (line : list byte) (p : CommandProtocol) :
  fst (lineReceived line p)
  = (if utf8_valid line then Ok tt else Raise UnicodeDecodeError) /\
  (utf8_valid line = false -> snd (lineReceived line p) = p).
Proof.
  destruct (decode line) as [text | e] eqn:Hd.
  - assert (V : utf8_valid line = true).
    { unfold decode in Hd. destruct (utf8_valid line); [reflexivity | discriminate]. }
    rewrite V. split; [| discriminate].
    destruct (lineReceived_outcome line text p Hd)
      as [E | [[l E] | [[e E] | (m & name & d & ev & _ & E & _)]]]; rewrite E; reflexivity.
  - assert (V : utf8_valid line = false).
    { unfold decode in Hd. destruct (utf8_valid line); [discriminate | reflexivity]. }
    rewrite V, (undecodable_line_raises line e p Hd).
    rewrite (decode_error line e Hd). split; reflexivity.
Qed.

(** A line has at most one effect: one line sent or one log entry, never
    both, and never a call to a handler chain. *)
Theorem one_effect_per_line (line : list byte) (p : CommandProtocol) :
  exists es,
    trace (snd (lineReceived line p)) = (trace p ++ es)%list /\
    (List.length es <= 1)%nat /\ accepts es = [].
Proof.
  destruct (lineReceived_step line p) as [_ [_ [_ [es [E [L [A _]]]]]]].
  exists es. repeat split; assumption.
Qed.

Lemma receive_all_cons l rest p :
  snd (receive_all (l :: rest) p)
  = match fst (lineReceived l p) with
    | Ok _ => snd (receive_all rest (snd (lineReceived l p)))
    | Raise _ => snd (lineReceived l p)
    end.
Proof.
  simpl. unfold bind. destruct (lineReceived l p) as [[[] | e] p1]; reflexivity.
Qed.

Lemma commands_keep_the_registry_skeleton_aux (lines : list (list byte)) : forall p,
  accepts (trace (snd (receive_all lines p))) = accepts (trace p) /\
  handlers (snd (receive_all lines p)) = handlers p.
Proof.
  induction lines as [| l rest IH]; intros p; [split; reflexivity |].
  rewrite receive_all_cons.
  destruct (lineReceived_step l p) as [_ [H [_ [es [E [_ [A _]]]]]]].
  assert (B : accepts (trace (snd (lineReceived l p))) = accepts (trace p)).
  { rewrite E, accepts_app, A, app_nil_r. reflexivity. }
  destruct (fst (lineReceived l p)).
  - destruct (IH (snd (lineReceived l p))) as [A' H']. rewrite A', H', B, H. split; reflexivity.
  - rewrite B, H. split; reflexivity.
Qed.

(** Whatever lines arrive, the registry keeps its devices: no command adds,
    removes or reorders a key, changes self test results or a device's
    handler chain, or touches the protocol's handler list; no command calls
    a handler chain; and there are at most as many lines sent as
    received. *)
Theorem commands_keep_the_registry_skeleton (lines : list (list byte)) (p : CommandProtocol) :
  skeleton (devices (snd (receive_all lines p))) = skeleton (devices p) /\
  handlers (snd (receive_all lines p)) = handlers p /\
  accepts (trace (snd (receive_all lines p))) = accepts (trace p) /\
  (List.length (sent (trace (snd (receive_all lines p))))
   <= List.length (sent (trace p)) + List.length lines)%nat.
Proof.
  revert p. induction lines as [| l rest IH]; intros p.
  - simpl. repeat split. lia.
  - rewrite receive_all_cons.
    destruct (lineReceived_step l p) as [S [H [_ [es [E [_ [A L]]]]]]].
    assert (B : accepts (trace (snd (lineReceived l p))) = accepts (trace p)
                /\ (List.length (sent (trace (snd (lineReceived l p))))
                    <= List.length (sent (trace p)) + 1)%nat).
    { rewrite E, accepts_app, sent_app, A, app_nil_r, length_app. split; [reflexivity | lia]. }
    destruct B as [B1 B2].
    destruct (fst (lineReceived l p)).
    + destruct (IH (snd (lineReceived l p))) as [S' [H' [A' L']]].
      rewrite S', H', A', S, H, B1. repeat split. simpl List.length. lia.
    + rewrite S, H, B1. repeat split. simpl List.length. lia.
Qed.

(** The naming invariant of the registry is kept by every sequence of
    lines: if each device's state is an object whose [name] is the device's
    key, it still is afterwards. *)
Theorem commands_keep_devices_well_named (lines : list (list byte)) (p : CommandProtocol) :
  well_named (devices p) -> well_named (devices (snd (receive_all lines p))).
Proof.
  revert p. induction lines as [| l rest IH]; intros p Hw; [exact Hw |].
  rewrite receive_all_cons.
  destruct (lineReceived_step l p) as [_ [_ [W _]]].
  destruct (fst (lineReceived l p)); [apply IH |]; apply W; exact Hw.
Qed.

Lemma split_GET_name name : has_pipe name = false -> split_pipe ("GET|" ++ name) = ["GET"; name].
Proof.
  intros Hn. change ("GET|" ++ name) with ("GET" ++ "|" ++ name).
  rewrite (split_pipe_token "GET" name eq_refl), (split_pipe_last name Hn). reflexivity.
Qed.

(** GET: alone it asks for the frame of all states; with a name, for the
    frame of that device's state if the name is registered, and it does
    nothing at all, not even log, if it is not; tokens after the name do
    not matter.  The frame is the decimal length of the JSON text, a ['|']
    and the text; when [json.dumps] raises, no line is sent and the
    exception is logged.  The registry is never changed. *)
Theorem get_replies (line : list byte) (text name rest : string) (p : CommandProtocol) :
  decode line = Ok text ->
  has_pipe name = false ->
  (text = "GET" ->
   lineReceived line p
   = (Ok tt,
      match json_dumps (JArr (map (fun kd => state (snd kd)) (devices p))) with
      | Ok y => after_send p (str_of_int (Z.of_nat (String.length y)) ++ "|" ++ y)
      | Raise e => after_event p (match e with
                                  | KeyError => LogInfo line
                                  | _ => LogException line e
                                  end)
      end)) /\
  (text = "GET|" ++ name \/ text = "GET|" ++ name ++ "|" ++ rest ->
   lineReceived line p
   = (Ok tt,
      match lookup name (devices p) with
      | Some d =>
          match json_dumps (state d) with
          | Ok y => after_send p (str_of_int (Z.of_nat (String.length y)) ++ "|" ++ y)
          | Raise e => after_event p (match e with
                                      | KeyError => LogInfo line
                                      | _ => LogException line e
                                      end)
          end
      | None => p
      end)).
Proof.
  intros Hd Hn. rewrite (lineReceived_decoded line text p Hd).
  split.
  - intros ->. change (split_pipe "GET") with ["GET"]. rewrite dispatch_GET.
    change (handle_get ["GET"]) with send_all_device_states.
    pose proof (try_send_device_state line
                  (JArr (map (fun kd => state (snd kd)) (devices p))) p) as T.
    unfold try_except, send_all_device_states, bind, get in *. rewrite T.
    destruct (json_dumps _) as [y | e]; [reflexivity |].
    destruct (log_failure_run line e p) as [_ [_ ->]]. reflexivity.
  - intros H.
    assert (T : exists more, split_pipe text = "GET" :: name :: more).
    { destruct H as [-> | ->].
      - exists []. apply split_GET_name. exact Hn.
      - exists (split_pipe rest).
        change ("GET|" ++ name ++ "|" ++ rest) with ("GET" ++ "|" ++ name ++ "|" ++ rest).
        rewrite (split_pipe_token "GET" _ eq_refl), (split_pipe_token name rest Hn).
        reflexivity. }
    destruct T as [more ->]. rewrite dispatch_GET.
    unfold try_except. rewrite handle_get_run.
    destruct (lookup name (devices p)) as [d |]; [| reflexivity].
    pose proof (try_send_device_state line (state d) p) as T.
    unfold try_except in T. rewrite T.
    destruct (json_dumps (state d)) as [y | e]; [reflexivity |].
    destruct (log_failure_run line e p) as [_ [_ ->]]. reflexivity.
Qed.

(** STR answers only a line of exactly two tokens: for a registered name
    it sends the self test results as bare JSON, without the length prefix
    of the state frames, or logs what [json.dumps] raised on them; for an
    unknown name, for no name and for any further token it does nothing at
    all. *)
Theorem str_replies (line : list byte) (text name rest : string) (p : CommandProtocol) :
  decode line = Ok text ->
  has_pipe name = false ->
  (text = "STR|" ++ name ->
   lineReceived line p
   = match lookup name (devices p) with
     | Some d =>
         match json_dumps (self_test_results d) with
         | Ok y => (Ok tt, after_send p y)
         | Raise e => (Ok tt, after_event p (match e with
                                             | KeyError => LogInfo line
                                             | _ => LogException line e
                                             end))
         end
     | None => (Ok tt, p)
     end) /\
  (text = "STR" \/ text = "STR|" ++ name ++ "|" ++ rest -> lineReceived line p = (Ok tt, p)).
Proof.
  intros Hd Hn. rewrite (lineReceived_decoded line text p Hd). unfold try_except.
  split.
  - intros ->. change ("STR|" ++ name) with ("STR" ++ "|" ++ name).
    rewrite (split_pipe_token "STR" name eq_refl), (split_pipe_last name Hn).
    rewrite dispatch_run. simpl. rewrite handle_str_run.
    destruct (lookup name (devices p)) as [d |]; [| reflexivity].
    destruct (json_dumps (self_test_results d)) as [y | e]; [reflexivity |].
    destruct (log_failure_run line e p) as [-> [_ ->]]. reflexivity.
  - intros [-> | ->]; [reflexivity |].
    change ("STR|" ++ name ++ "|" ++ rest) with ("STR" ++ "|" ++ name ++ "|" ++ rest).
    rewrite (split_pipe_token "STR" _ eq_refl), (split_pipe_token name rest Hn).
    rewrite dispatch_run. simpl. rewrite handle_str_run.
    destruct (split_pipe_nonempty rest) as [t [ts ->]]. reflexivity.
Qed.

(** SET then GET: once a SET has named a device, the device has the new
    state and a GET for it has the effect the SET had: the very frame the
    SET was echoed with when [json.dumps] writes the state, and a log
    entry, with nothing sent by either line, when it raises. *)
Theorem set_then_get (set_line get_line : list byte) (text : string) (toks : list string)
    (m : list (string * json)) (name : string) (d : Device) (p : CommandProtocol) :
  decode set_line = Ok text ->
  split_pipe text = "SET" :: toks ->
  names_device ("SET" :: toks) p m name d ->
  has_pipe name = false ->
  decode get_line = Ok ("GET|" ++ name) ->
  let after := snd (receive_all [set_line; get_line] p) in
  fst (receive_all [set_line; get_line] p) = Ok tt /\
  devices after = set_state name (JObj m) (devices p) /\
  lookup name (devices after)
  = Some {| state := JObj m; self_test_results := self_test_results d;
            data_handler := data_handler d |} /\
  (forall y, json_dumps (JObj m) = Ok y ->
     trace after
     = (trace p ++ [SendLine (str_of_int (Z.of_nat (String.length y)) ++ "|" ++ y);
                    SendLine (str_of_int (Z.of_nat (String.length y)) ++ "|" ++ y)])%list) /\
  (forall e, json_dumps (JObj m) = Raise e ->
     trace after
     = (trace p ++ [match e with KeyError => LogInfo set_line | _ => LogException set_line e end;
                    match e with KeyError => LogInfo get_line | _ => LogException get_line e end])%list).
Proof.
  intros Hs Ht Hn Hp Hg after.
  pose proof (lineReceived_set set_line text toks p m name d Hs Ht Hn) as E1.
  set (ev := match json_dumps (JObj m) with
             | Ok y => SendLine (str_of_int (Z.of_nat (String.length y)) ++ "|" ++ y)
             | Raise e => log_entry set_line e
             end) in E1.
  set (p1 := after_set p name (JObj m) ev) in *.
  assert (L : lookup name (devices p1)
              = Some {| state := JObj m; self_test_results := self_test_results d;
                        data_handler := data_handler d |}).
  { destruct Hn as (a & _ & _ & _ & H4). apply lookup_set_state_eq. exact H4. }
  assert (E2 : lineReceived get_line p1
               = (Ok tt,
                  match json_dumps (JObj m) with
                  | Ok y => after_send p1 (str_of_int (Z.of_nat (String.length y)) ++ "|" ++ y)
                  | Raise e => after_event p1 (log_entry get_line e)
                  end)).
  { rewrite (lineReceived_decoded get_line _ _ Hg), (split_GET_name name Hp), dispatch_GET.
    unfold try_except. rewrite handle_get_run, L. cbn [state].
    pose proof (try_send_device_state get_line (JObj m) p1) as T.
    unfold try_except in T. exact T. }
  assert (R : receive_all [set_line; get_line] p
              = (Ok tt,
                 match json_dumps (JObj m) with
                 | Ok y => after_send p1 (str_of_int (Z.of_nat (String.length y)) ++ "|" ++ y)
                 | Raise e => after_event p1 (log_entry get_line e)
                 end)).
  { simpl. unfold bind. rewrite E1, E2. reflexivity. }
  unfold after. rewrite R. cbn [fst snd].
  split; [reflexivity |].
  split; [destruct (json_dumps (JObj m)); reflexivity |].
  split; [destruct (json_dumps (JObj m)); exact L |].
  split.
  - intros y Hy. unfold p1, ev. rewrite Hy. simpl. rewrite <- app_assoc. reflexivity.
  - intros e He. unfold p1, ev. rewrite He. simpl. rewrite <- app_assoc.
    destruct e; reflexivity.
Qed.

(** The handler chains hear of a connection when it is made and when it
    is lost, and never in between.  [__init__] calls [accept(None)] once
    per device in registry order.  When [connectionMade] can write the
    states, it calls [accept(SocketHandler)] once per device, no line
    received afterwards calls a chain, and [connectionLost] adds one
    [accept(None)] per device and sends nothing.  When [json.dumps] raises
    on the states, [connectionMade] raises before any chain is told. *)
Theorem handler_chains_over_a_connection (ds : registry) (lines : list (list byte)) :
  let hs := map (fun kd => data_handler (snd kd)) ds in
  let p0 := buildProtocol ds in
  accepts (trace p0) = map (fun h => (h, false)) hs /\
  handlers p0 = hs /\
  (forall y, json_dumps (JArr (map (fun kd => state (snd kd)) ds)) = Ok y ->
     let p := snd (serve lines p0) in
     accepts (trace p)
     = (map (fun h => (h, false)) hs ++ map (fun h => (h, true)) hs)%list /\
     handlers p = hs /\
     fst (connectionLost p) = Ok tt /\
     accepts (trace (snd (connectionLost p)))
     = (map (fun h => (h, false)) hs ++ map (fun h => (h, true)) hs
        ++ map (fun h => (h, false)) hs)%list /\
     sent (trace (snd (connectionLost p))) = sent (trace p) /\
     devices (snd (connectionLost p)) = devices p) /\
  (forall e, json_dumps (JArr (map (fun kd => state (snd kd)) ds)) = Raise e ->
     fst (connectionMade p0) = Raise e /\
     accepts (trace (snd (connectionMade p0))) = map (fun h => (h, false)) hs).
Proof.
  intros hs p0.
  assert (A : forall (l : list nat) b, accepts (map (fun h => Accept h b) l)
                                       = map (fun h => (h, b)) l).
  { intros l b. induction l as [| h l IH]; simpl; [reflexivity | rewrite <- IH; reflexivity]. }
  assert (I : accepts (trace p0) = map (fun h => (h, false)) hs).
  { unfold p0, buildProtocol, init_protocol, hs. simpl.
    induction ds as [| kd ds IH]; simpl; [reflexivity | rewrite <- IH; reflexivity]. }
  split; [exact I |]. split; [reflexivity |]. split.
  - intros y Hy p.
    assert (P : accepts (trace p)
                = (map (fun h => (h, false)) hs ++ map (fun h => (h, true)) hs)%list
                /\ handlers p = hs).
    { unfold p, serve, bind. rewrite connectionMade_run.
      cbn [devices p0 buildProtocol init_protocol]. rewrite Hy.
      match goal with |- context [receive_all lines ?p1] =>
        destruct (commands_keep_the_registry_skeleton_aux lines p1) as [H1 H2] end.
      rewrite H1, H2. cbn [trace handlers]. rewrite accepts_app, I.
      cbn [accepts flat_map app].
      fold (accepts (map (fun h => Accept h true) (handlers p0))).
      rewrite A. split; reflexivity. }
    destruct P as [P1 P2].
    split; [exact P1 |]. split; [exact P2 |].
    unfold connectionLost, bind, get. rewrite emit_all_run. simpl.
    rewrite accepts_app, sent_app, A, sent_accepts, app_nil_r, P1, P2, <- app_assoc.
    repeat split.
  - intros e He. rewrite connectionMade_run.
    cbn [devices p0 buildProtocol init_protocol]. rewrite He.
    split; [reflexivity | exact I].
Qed.

End Codec.

Lemma two_devices_well_named : well_named two_devices.
Proof.
  intros k d [H | [H | []]]; inversion H; eexists; split; reflexivity.
Defined.

Lemma commands_keep_devices_well_named_witness :
  let p := init_protocol two_devices in
  let lines := [bytes_of ("SET|" ++ set_rate_200); bytes_of "GET"; [xff]; bytes_of "GET"] in
  well_named (devices p) /\
  well_named (devices (snd (@receive_all example_codec lines p))) /\
  lookup "imu0" (devices (snd (@receive_all example_codec lines p)))
  = Some {| state := imu0_rate "200"; self_test_results := JObj []; data_handler := 0 |}.
Proof.
  intros p lines.
  split; [exact two_devices_well_named |]. split; [| reflexivity].
  apply (@commands_keep_devices_well_named example_codec lines p two_devices_well_named).
Defined.

Lemma get_replies_witness :
  let p := init_protocol two_devices in
  decode (bytes_of "GET|imu0|more") = Ok "GET|imu0|more" /\
  has_pipe "imu0" = false /\
  @lineReceived example_codec (bytes_of "GET|imu0|more") p
  = (Ok tt, after_send p ("29|{" ++ quoted "name" ++ ": " ++ quoted "imu0" ++ ", "
                                 ++ quoted "rate" ++ ": 100}")) /\
  @lineReceived example_codec (bytes_of "GET|imu1") p
  = (Ok tt, after_send p ("16|{" ++ quoted "name" ++ ": " ++ quoted "imu1" ++ "}")) /\
  @lineReceived example_codec (bytes_of "GET|nobody") p = (Ok tt, p) /\
  sent (trace (snd (@lineReceived example_codec (bytes_of "GET") p)))
  = ["49|[{" ++ quoted "name" ++ ": " ++ quoted "imu0" ++ ", " ++ quoted "rate" ++ ": 100}, {"
     ++ quoted "name" ++ ": " ++ quoted "imu1" ++ "}]"] /\
  @lineReceived (limited_codec 0) (bytes_of "GET|imu0") p
  = (Ok tt, after_event p (LogException (bytes_of "GET|imu0") RecursionError)).
Proof.
  intros p.
  destruct (@get_replies example_codec (bytes_of "GET|imu0|more") "GET|imu0|more"
              "imu0" "more" p eq_refl eq_refl) as [_ H1].
  destruct (@get_replies example_codec (bytes_of "GET|imu1") "GET|imu1"
              "imu1" "" p eq_refl eq_refl) as [_ H1'].
  destruct (@get_replies example_codec (bytes_of "GET|nobody") "GET|nobody"
              "nobody" "" p eq_refl eq_refl) as [_ H2].
  destruct (@get_replies example_codec (bytes_of "GET") "GET" "" "" p eq_refl eq_refl)
    as [H3 _].
  destruct (@get_replies (limited_codec 0) (bytes_of "GET|imu0") "GET|imu0"
              "imu0" "" p eq_refl eq_refl) as [_ H4].
  split; [reflexivity |]. split; [reflexivity |].
  split; [rewrite (H1 (or_intror eq_refl)); reflexivity |].
  split; [rewrite (H1' (or_introl eq_refl)); reflexivity |].
  split; [rewrite (H2 (or_introl eq_refl)); reflexivity |].
  split; [rewrite (H3 eq_refl); reflexivity |].
  rewrite (H4 (or_introl eq_refl)). reflexivity.
Defined.

Lemma str_replies_witness :
  let p := init_protocol two_devices in
  decode (bytes_of "STR|imu1") = Ok "STR|imu1" /\
  has_pipe "imu1" = false /\
  @lineReceived example_codec (bytes_of "STR|imu1") p = (Ok tt, after_send p "[true]") /\
  @lineReceived example_codec (bytes_of "STR|imu1|more") p = (Ok tt, p) /\
  @lineReceived example_codec (bytes_of "STR") p = (Ok tt, p) /\
  @lineReceived (limited_codec 0) (bytes_of "STR|imu1") p
  = (Ok tt, after_event p (LogException (bytes_of "STR|imu1") RecursionError)).
Proof.
  intros p.
  destruct (@str_replies example_codec (bytes_of "STR|imu1") "STR|imu1" "imu1" "" p
              eq_refl eq_refl) as [H1 _].
  destruct (@str_replies example_codec (bytes_of "STR|imu1|more") "STR|imu1|more" "imu1" "more" p
              eq_refl eq_refl) as [_ H2].
  destruct (@str_replies example_codec (bytes_of "STR") "STR" "imu1" "" p
              eq_refl eq_refl) as [_ H3].
  destruct (@str_replies (limited_codec 0) (bytes_of "STR|imu1") "STR|imu1" "imu1" "" p
              eq_refl eq_refl) as [H4 _].
  split; [reflexivity |]. split; [reflexivity |].
  split; [rewrite (H1 eq_refl); reflexivity |].
  split; [exact (H2 (or_intror eq_refl)) |].
  split; [exact (H3 (or_introl eq_refl)) |].
  rewrite (H4 eq_refl). reflexivity.
Defined.

Lemma set_then_get_witness :
  let p := init_protocol two_devices in
  let set_line := bytes_of ("SET|" ++ set_rate_200) in
  let set_deep := bytes_of ("SET|" ++ set_nested) in
  let get_line := bytes_of "GET|imu0" in
  decode set_line = Ok ("SET|" ++ set_rate_200) /\
  split_pipe ("SET|" ++ set_rate_200) = ["SET"; set_rate_200] /\
  has_pipe "imu0" = false /\
  decode get_line = Ok "GET|imu0" /\
  trace (snd (@receive_all example_codec [set_line; get_line] p))
  = (trace p ++ [SendLine ("29|{" ++ quoted "name" ++ ": " ++ quoted "imu0" ++ ", "
                                  ++ quoted "rate" ++ ": 200}");
                 SendLine ("29|{" ++ quoted "name" ++ ": " ++ quoted "imu0" ++ ", "
                                  ++ quoted "rate" ++ ": 200}")])%list /\
  trace (snd (@receive_all (limited_codec 3) [set_deep; get_line] p))
  = (trace p ++ [LogException set_deep RecursionError;
                 LogException get_line RecursionError])%list /\
  lookup "imu0" (devices (snd (@receive_all (limited_codec 3) [set_deep; get_line] p)))
  = Some {| state := nested_state; self_test_results := JObj []; data_handler := 0 |}.
Proof.
  intros p set_line set_deep get_line.
  set (d := {| state := imu0_rate "100"; self_test_results := JObj []; data_handler := 0 |}).
  assert (N : @names_device example_codec ["SET"; set_rate_200] p
                [("name", JStr "imu0"); ("rate", JNum "200")] "imu0" d).
  { exists set_rate_200. repeat split; reflexivity. }
  assert (N2 : @names_device (limited_codec 3) ["SET"; set_nested] p
                 [("name", JStr "imu0"); ("cal", JArr [JArr [JArr []]])] "imu0" d).
  { exists set_nested. repeat split; reflexivity. }
  destruct (@set_then_get example_codec set_line get_line ("SET|" ++ set_rate_200)
              [set_rate_200] _ "imu0" _ p eq_refl eq_refl N eq_refl eq_refl)
    as [_ [_ [_ [S _]]]].
  destruct (@set_then_get (limited_codec 3) set_deep get_line ("SET|" ++ set_nested)
              [set_nested] _ "imu0" _ p eq_refl eq_refl N2 eq_refl eq_refl)
    as [_ [_ [L [_ S2]]]].
  split; [reflexivity |]. split; [reflexivity |]. split; [reflexivity |].
  split; [reflexivity |].
  split; [rewrite (S _ eq_refl); reflexivity |].
  split; [rewrite (S2 _ eq_refl); reflexivity | exact L].
Defined.

Lemma handler_chains_over_a_connection_witness :
  let lines := [bytes_of "GET"; bytes_of ("SET|" ++ set_rate_200)] in
  accepts (trace (snd (@serve example_codec lines (buildProtocol two_devices))))
  = [(0%nat, false); (1%nat, false); (0%nat, true); (1%nat, true)] /\
  accepts (trace (snd (connectionLost
                         (snd (@serve example_codec lines (buildProtocol two_devices))))))
  = [(0%nat, false); (1%nat, false); (0%nat, true); (1%nat, true);
     (0%nat, false); (1%nat, false)] /\
  fst (@connectionMade (limited_codec 0) (buildProtocol two_devices)) = Raise RecursionError /\
  accepts (trace (snd (@connectionMade (limited_codec 0) (buildProtocol two_devices))))
  = [(0%nat, false); (1%nat, false)].
Proof.
  intros lines.
  destruct (@handler_chains_over_a_connection example_codec two_devices lines)
    as [_ [_ [H _]]].
  destruct (H _ eq_refl) as [A [_ [_ [B _]]]].
  destruct (@handler_chains_over_a_connection (limited_codec 0) two_devices lines)
    as [_ [_ [_ H']]].
  destruct (H' _ eq_refl) as [C D].
  split; [exact A |]. split; [exact B |]. split; [exact C | exact D].
Defined.

(** *** What the handler chain pushes *)

Section Handler.
Context `{codec : JsonCodec} `{hm : handler_module}.

Lemma handle_datum_run datum h :
  handle_datum datum h
  = match forwarded datum with
    | Ok l =>
        (Ok tt,
         {| protocol := {| devices := devices (protocol h);
                           handlers := handlers (protocol h);
                           trace := (trace (protocol h) ++ map SendLine l)%list |};
            unknown_data := (unknown_data h
                             ++ match l with [] => [datum] | _ => [] end)%list |})
    | Raise e => (Raise e, h)
    end.
Proof.
  destruct h as [[ds hs tr] u].
  unfold handle_datum, forwarded, protocol_sendLine, log_unknown, modify, bind, lift.
  destruct datum; simpl; try destruct (String.eqb ERROR s); simpl;
    rewrite ?app_nil_r; try reflexivity;
    match goal with |- context [json_dumps ?j] => destruct (json_dumps j) end;
    simpl; rewrite ?app_nil_r; reflexivity.
Qed.

Lemma handle_app data1 data2 h :
  handle (data1 ++ data2) h
  = match handle data1 h with
    | (Ok _, h1) => handle data2 h1
    | (Raise e, h1) => (Raise e, h1)
    end.
Proof.
  revert h. induction data1 as [| datum data1 IH]; intros h; [reflexivity |].
  cbn [app handle]. unfold bind.
  destruct (handle_datum datum h) as [[[] | e] h1]; [apply IH | reflexivity].
Qed.

Lemma handle_writable data : forall h,
  Forall (fun datum => exists l, forwarded datum = Ok l) data ->
  handle data h
  = (Ok tt,
     {| protocol := {| devices := devices (protocol h);
                       handlers := handlers (protocol h);
                       trace := (trace (protocol h) ++ map SendLine (lines_of data))%list |};
        unknown_data := (unknown_data h ++ unknown_of data)%list |}).
Proof.
  induction data as [| datum data IH]; intros h Hall.
  - destruct h as [[ds hs tr] u]. simpl. unfold ret. rewrite !app_nil_r. reflexivity.
  - inversion Hall as [| ? ? [l Hl] Hrest]; subst.
    cbn [handle]. unfold bind. rewrite handle_datum_run, Hl, (IH _ Hrest).
    unfold lines_of, unknown_of. cbn [flat_map protocol unknown_data devices handlers trace].
    rewrite Hl, map_app, <- !app_assoc.
    destruct l; reflexivity.
Qed.

(** [SocketHandler.handle] never touches the registry.  It sends, in order
    and without a length prefix, one line for every object, array or error
    token among the data, and hands every other datum to the error log, as
    long as [json.dumps] writes the objects and arrays; at the first one it
    raises on, [handle] raises with it, having sent the lines of the data
    before it and none of those after. *)
Theorem handle_forwards_in_order (data : list json) (h : SocketHandler) :
  let sent_all (done : list json) :=
    {| protocol := {| devices := devices (protocol h);
                      handlers := handlers (protocol h);
                      trace := (trace (protocol h) ++ map SendLine (lines_of done))%list |};
       unknown_data := (unknown_data h ++ unknown_of done)%list |} in
  (Forall (fun datum => exists l, forwarded datum = Ok l) data ->
   handle data h = (Ok tt, sent_all data)) /\
  (forall done datum rest e,
     data = (done ++ datum :: rest)%list ->
     Forall (fun datum => exists l, forwarded datum = Ok l) done ->
     forwarded datum = Raise e ->
     handle data h = (Raise e, sent_all done)).
Proof.
  intros sent_all. split.
  - intros Hall. apply handle_writable. exact Hall.
  - intros done datum rest e -> Hall He.
    rewrite handle_app, (handle_writable done h Hall).
    cbn [handle]. unfold bind. rewrite handle_datum_run, He. reflexivity.
Qed.

End Handler.

Lemma handle_forwards_in_order_witness :
  let h := {| protocol := init_protocol example_registry; unknown_data := [] |} in
  let data := [JObj []; JNum "5"; JStr "error"; JStr "other"; JArr [JNull]] in
  let deep := [JArr [JBool true]; JNull; JArr [JArr []]; JObj []] in
  @handle example_codec example_handler_module data h
  = (Ok tt,
     {| protocol := {| devices := example_registry; handlers := [0%nat];
                       trace := [Accept 0 false; SendLine "{}"; SendLine "error";
                                 SendLine "[null]"] |};
        unknown_data := [JNum "5"; JStr "other"] |}) /\
  @handle (limited_codec 1) example_handler_module deep h
  = (Raise RecursionError,
     {| protocol := {| devices := example_registry; handlers := [0%nat];
                       trace := [Accept 0 false; SendLine "[true]"] |};
        unknown_data := [JNull] |}).
Proof.
  intros h data deep.
  destruct (@handle_forwards_in_order example_codec example_handler_module data h) as [H1 _].
  destruct (@handle_forwards_in_order (limited_codec 1) example_handler_module deep h)
    as [_ H2].
  split.
  - rewrite H1; [reflexivity |].
    repeat constructor; eexists; reflexivity.
  - rewrite (H2 [JArr [JBool true]; JNull] (JArr [JArr []]) [JObj []] RecursionError eq_refl);
      [reflexivity | | reflexivity].
    repeat constructor; eexists; reflexivity.
Defined.

End Session.
